(** * HackRx 6.0 retrieval pipeline: text cleaning, chunking and the document store

    A shallow embedding of [document_processor/text_processor.py] and
    [document_processor/document_store.py].

    - Python [str] values are lists of Unicode code points ([pystr]).
    - Python [int] values are [Z]; list positions and slice bounds are [Z] too,
      because [str.rfind] answers [-1].
    - Python dictionaries are objects: they live in a heap of dictionaries and
      are passed around by reference, so that [dict.copy] and [dict.update]
      keep their meaning.
    - The sentence-transformer model and the FAISS index are collaborators
      outside the repository: the encoder and the nearest-neighbour search are
      parameters of the development, the flat index itself is the list of the
      vectors added so far.
    - Floating-point arithmetic is an interface ([FloatArith]) with three
      instances: IEEE binary64 (primitive floats), exact rationals, and
      rationals rounded after each operation.
    - A call that may not return takes fuel: the number of iterations its
      loop may run. *)

From Stdlib Require Import ZArith QArith Qround Lia Lqa Sorting.Sorted.
From Stdlib Require Import Floats.PrimFloat.
From stdpp Require Import base gmap strings list fin_maps.

Set Default Proof Using "Type".
Local Open Scope Z_scope.

(** ** Python strings *)

Module PyStr.

(** A string is the list of its code points. *)
Abbreviation pystr := (list Z).

(** Code points of an ASCII literal. *)
Definition py (s : string) : pystr :=
  map (fun a => Z.of_N (Ascii.N_of_ascii a)) (String.list_ascii_of_string s).

Definition len (s : pystr) : Z := Z.of_nat (length s).

(** [str.isspace] on one character, which is also what [str.split],
    [str.strip] and the regular expression class [\s] use. *)
Definition isspace (c : Z) : bool :=
  ((9 <=? c) && (c <=? 13)) || ((28 <=? c) && (c <=? 32))
  || (c =? 133) || (c =? 160) || (c =? 5760)
  || ((8192 <=? c) && (c <=? 8202))
  || (c =? 8232) || (c =? 8233) || (c =? 8239) || (c =? 8287) || (c =? 12288).

(** [s.split()]: the maximal runs of non-whitespace characters. *)
Fixpoint split (s : pystr) : list pystr :=
  match s with
  | [] => []
  | c :: s' =>
      if isspace c then split s'
      else match s' with
           | [] => [[c]]
           | c' :: _ =>
               if isspace c' then [c] :: split s'
               else match split s' with
                    | w :: ws => (c :: w) :: ws
                    | [] => [[c]]
                    end
           end
  end.

(** [sep.join(ws)]. *)
Fixpoint join (sep : pystr) (ws : list pystr) : pystr :=
  match ws with
  | [] => []
  | [w] => w
  | w :: ws' => w ++ sep ++ join sep ws'
  end.

(** [s.lstrip()], [s.rstrip()] and [s.strip()]. *)
Fixpoint lstrip (s : pystr) : pystr :=
  match s with
  | c :: s' => if isspace c then lstrip s' else s
  | [] => []
  end.

Definition rstrip (s : pystr) : pystr := rev (lstrip (rev s)).

Definition strip (s : pystr) : pystr := rstrip (lstrip s).

(** [s[i:j]] for [0 <= i] and [0 <= j]; a bound past the end is clamped, and
    [j <= i] gives the empty string.  The chunker never passes a negative
    bound. *)
Definition slice (s : pystr) (i j : Z) : pystr :=
  firstn (Z.to_nat (j - i)) (skipn (Z.to_nat i) s).

(** [s[i]] read as a code point, [-1] past the end. *)
Definition char_at (s : pystr) (i : Z) : Z := nth (Z.to_nat i) s (-1).

(** [s.rfind(c, i, j)] for a one-character [c] and [0 <= i <= j <= len s]:
    the highest position in [i, j) holding [c], or [-1]. *)
Fixpoint rfind_from (s : pystr) (c : Z) (i : Z) (n : nat) : Z :=
  match n with
  | O => -1
  | S n' => if char_at s (i + Z.of_nat n') =? c then i + Z.of_nat n'
            else rfind_from s c i n'
  end.

Definition rfind (s : pystr) (c : Z) (i j : Z) : Z :=
  rfind_from s c i (Z.to_nat (j - i)).

(** [s.encode('ascii', 'ignore').decode('ascii')]: the characters that have
    no ASCII encoding are dropped. *)
Definition encode_ascii_ignore (s : pystr) : list Z :=
  filter (fun c => 0 <= c < 128) s.

Definition decode_ascii (b : list Z) : pystr := b.

(** The class [\w] on ASCII characters: letters, digits and the underscore. *)
Definition is_word (c : Z) : bool :=
  ((48 <=? c) && (c <=? 57)) || ((65 <=? c) && (c <=? 90))
  || ((97 <=? c) && (c <=? 122)) || (c =? 95).

(** The punctuation listed in the pattern: [. , ; : ! ? ( ) [ ] -]. *)
Definition is_kept_punct (c : Z) : bool :=
  (c =? 46) || (c =? 44) || (c =? 59) || (c =? 58) || (c =? 33) || (c =? 63)
  || (c =? 40) || (c =? 41) || (c =? 91) || (c =? 93) || (c =? 45).

End PyStr.
Import PyStr.

(** [TextProcessor.clean_text]. *)
Definition clean_text (text : pystr) : pystr :=
  (* Remove extra whitespace *)
  let text := join [32] (split text) in
  (* Normalize unicode characters *)
  let text := decode_ascii (encode_ascii_ignore text) in
  (* Remove special characters but keep sentence structure *)
  let text :=
    map (fun c => if is_word c || isspace c || is_kept_punct c then c else 32) text in
  strip text.

(** ** Python values, dictionaries and the heap of dictionaries *)

(** The values a metadata dictionary holds: the JSON-like ones, without the
    floats, which no statement needs, and the objects [json.dump] has no
    form for, such as the [datetime] of a Word document's properties. *)
#[warnings="-register-all"] Inductive pyval : Type :=
| PNone
| PBool (b : bool)
| PInt (n : Z)
| PStr (s : pystr)
| PList (l : list pyval)
| PDict (d : list (string * pyval))
| PObject.

(** Whether [json.dump] can write a value: every value inside it has a JSON
    form. *)
Fixpoint json_ok (v : pyval) : bool :=
  match v with
  | PNone | PBool _ | PInt _ | PStr _ => true
  | PList l => forallb json_ok l
  | PDict d => forallb (fun kv => let '(_, w) := kv in json_ok w) d
  | PObject => false
  end.

(** The content of a [dict] with string keys. *)
Abbreviation dict := (gmap string pyval).

(** A reference to a dictionary object, and the heap holding the objects:
    an object's address is its position, a new object goes at the end. *)
Abbreviation loc := nat.
Abbreviation heap := (list (gmap string pyval)).

(** [{}] and [d.copy()]: a new object, with the content of [d] for a copy. *)
Definition dict_new (h : heap) : loc * heap := (length h, h ++ [∅]).

Definition dict_copy (h : heap) (l : loc) : loc * heap :=
  (length h, h ++ [default ∅ (h !! l)]).

(** [d.update({k1: v1, ...})], in place. *)
Definition dict_update (h : heap) (l : loc) (kvs : list (string * pyval)) : heap :=
  match h !! l with
  | Some d => <[l := foldl (fun d kv => <[kv.1 := kv.2]> d) d kvs]> h
  | None => h
  end.

(** ** Results of calls *)

(** The exceptions the modelled code can let through. *)
Inductive exn : Type :=
| ProviderError   (* the embedding call raised *)
| IndexError      (* [...][0] on an empty answer *)
| TypeError       (* a value with no float or JSON form *)
| AttributeError  (* a method of [None] *)
| ValueError      (* embeddings of different lengths *)
| AssertionError  (* the FAISS wrapper rejected its argument *)
| FileNotFoundError.

(** A call returns, raises, or is still running when the fuel is spent. *)
Inductive outcome (A : Type) : Type :=
| Done (a : A)
| Raise (e : exn)
| Running.
Arguments Done {A} a.
Arguments Raise {A} e.
Arguments Running {A}.

(** ** The chunker *)

Section Chunker.

(** [V] is the type of an embedding vector. *)
Context {V : Type}.

Record TextChunk : Type := {
  text : pystr;
  metadata : loc;
  embedding : option V;
}.

(** The attributes of a [TextProcessor]; [model] stands for
    [self.model.encode(texts, convert_to_numpy=True)], [None] when the call
    raises. *)
Record TextProcessor : Type := {
  model : list pystr -> option (list V);
  chunk_size : Z;
  overlap : Z;
}.

(** [TextProcessor.__init__]. *)
Definition TextProcessor_init (encode : list pystr -> option (list V)) : TextProcessor :=
  {| model := encode; chunk_size := 1000; overlap := 200 |}.

(** What the [while] loop of [chunk_text] changes. *)
Record loop_state : Type := {
  start : Z;
  chunks : list TextChunk;
  hp : heap;
}.

Variable self : TextProcessor.
Variable txt : pystr.

(** Lines 65-74: the end of the window that begins at [start]. *)
Definition window_end (start : Z) : Z :=
  let end_ := Z.min (start + chunk_size self) (len txt) in
  if end_ <? len txt then
    let sentence_end :=
      Z.max (Z.max (rfind txt 46 start end_) (rfind txt 33 start end_))
            (rfind txt 63 start end_) in
    if start + chunk_size self / 2 <? sentence_end then sentence_end + 1 else end_
  else end_.

(** Lines 87-91: where the next window begins. *)
Definition next_start (end_ : Z) : Z :=
  let start := if overlap self <? end_ then end_ - overlap self else end_ in
  if (start =? end_) && (end_ <? len txt) then end_ else start.

(** Lines 65-91: one iteration; [md] is the caller's dictionary. *)
Definition loop_body (md : loc) (st : loop_state) : loop_state :=
  let end_ := window_end (start st) in
  let chunk_text := strip (slice txt (start st) end_) in
  let '(chunks', hp') :=
    match chunk_text with
    | [] => (chunks st, hp st)
    | _ :: _ =>
        let '(chunk_metadata, h1) := dict_copy (hp st) md in
        let h2 := dict_update h1 chunk_metadata
                    [("chunk_start"%string, PInt (start st));
                     ("chunk_end"%string, PInt end_);
                     ("chunk_id"%string, PInt (Z.of_nat (length (chunks st))))] in
        (chunks st ++ [{| text := chunk_text; metadata := chunk_metadata;
                          embedding := None |}], h2)
    end in
  {| start := next_start end_; chunks := chunks'; hp := hp' |}.

(** The state after [n] iterations, whatever the loop condition says. *)
Fixpoint iterate (n : nat) (md : loc) (st : loop_state) : loop_state :=
  match n with
  | O => st
  | S n' => iterate n' md (loop_body md st)
  end.

(** [while start < text_length: ...], at most [fuel] iterations: the state
    comes with [true] when the loop has exited. *)
Fixpoint while_loop (fuel : nat) (md : loc) (st : loop_state) : bool * loop_state :=
  if start st <? len txt then
    match fuel with
    | O => (false, st)
    | S fuel' => while_loop fuel' md (loop_body md st)
    end
  else (true, st).

(** [TextProcessor.chunk_text(text, metadata)]: the result and the heap the
    call leaves. *)
Definition chunk_text (fuel : nat) (metadata : option loc) (h : heap)
  : outcome (list TextChunk) * heap :=
  let '(metadata, h) :=
    match metadata with
    | None => dict_new h
    | Some l => (l, h)
    end in
  let '(exited, st) := while_loop fuel metadata {| start := 0; chunks := []; hp := h |} in
  (if exited then Done (chunks st) else Running, hp st).

End Chunker.

Arguments TextChunk : clear implicits.
Arguments TextProcessor : clear implicits.
Arguments loop_state : clear implicits.


(** ** Floating-point arithmetic *)

(** The operations the store performs on floats.  [flt a b] is [a < b] and
    [fle a b] is [a <= b]. *)
Class FloatArith (F : Type) : Type := {
  fone : F;
  fadd : F → F → F;
  fdiv : F → F → F;
  flt : F → F → bool;
  fle : F → F → bool;
}.

(** IEEE 754 binary64, the arithmetic of a Python [float]; the distances
    FAISS answers are binary32 numbers, which binary64 holds exactly. *)
#[export] Instance binary64 : FloatArith PrimFloat.float := {|
  fone := 1%float;
  fadd := PrimFloat.add;
  fdiv := PrimFloat.div;
  flt := PrimFloat.ltb;
  fle := PrimFloat.leb;
|}.

(** Exact rational arithmetic, with no rounding. *)
#[export] Instance exact : FloatArith Q := {|
  fone := 1%Q;
  fadd := Qplus;
  fdiv := Qdiv;
  flt := fun a b => negb (Qle_bool b a);
  fle := Qle_bool;
|}.

(** Rounded arithmetic: each operation is the exact one followed by the
    rounding [rnd] to the representable numbers. *)
Definition rounded (rnd : Q → Q) : FloatArith Q := {|
  fone := 1%Q;
  fadd := fun a b => rnd (a + b)%Q;
  fdiv := fun a b => rnd (a / b)%Q;
  flt := fun a b => negb (Qle_bool b a);
  fle := Qle_bool;
|}.

(** Line 98: [score = 1.0 / (1.0 + distance)]. *)
Definition score_of_distance {F : Type} `{FloatArith F} (distance : F) : F :=
  fdiv fone (fadd fone distance).

(** ** The document store *)

Section DocumentStore.

Context {F : Type} `{FloatArith F}.

(** An embedding vector. *)
Abbreviation vec := (list F).

(** The two collaborators: [SentenceTransformer.encode] on a list of texts
    and [IndexFlatL2.search(x, k)] on the stored vectors, which answers the
    rows [distances[0]] and [indices[0]].  [None] stands for a call that
    raises. *)
Variable encode : list pystr → option (list vec).
Variable faiss_search : list vec → vec → Z → option (list F * list Z).

(** [faiss.IndexFlatL2(d)]: the dimension and the vectors in insertion
    order. *)
Record IndexFlatL2 : Type := {
  dim : Z;
  vectors : list vec;
}.

(** [index.add(x)] for an array [x] of shape [(n, d)]: the wrapper asserts
    that [d] is the dimension of the index. *)
Definition index_add (ix : IndexFlatL2) (x : list vec) : option IndexFlatL2 :=
  if forallb (fun v => Z.of_nat (length v) =? dim ix) x
  then Some {| dim := dim ix; vectors := vectors ix ++ x |}
  else None.

(** The value under ['embedding'] in a stored record: a list of floats after
    [tolist()], a numpy array after [np.array(...)]. *)
Inductive embedding_value : Type :=
| AsList (xs : vec)
| AsArray (xs : vec).

(** A record of [metadata_store]: the dictionary [asdict(chunk)] builds. *)
Record chunk_dict : Type := {
  cd_text : pystr;
  cd_metadata : dict;
  cd_embedding : embedding_value;
}.

Record SearchResult : Type := {
  sr_text : pystr;
  sr_metadata : dict;
  score : F;
}.

Record DocumentStore : Type := {
  persist_dir : string;
  dimension : Z;
  index : IndexFlatL2;
  metadata_store : list chunk_dict;
}.

(** [self.text_processor]: always [TextProcessor()], with the default
    model. *)
Definition text_processor : TextProcessor vec := TextProcessor_init encode.

(** [DocumentStore.__init__]; the directory it creates is not modelled. *)
Definition DocumentStore_init (persist_dir : string) : DocumentStore :=
  {| persist_dir := persist_dir;
     dimension := 384;
     index := {| dim := 384; vectors := [] |};
     metadata_store := [] |}.

(** [TextProcessor.embed_chunks]: [zip] stops at the shorter list, the
    chunks past it keep their embedding. *)
Fixpoint set_embeddings (chunks : list (TextChunk vec)) (embeddings : list vec)
  : list (TextChunk vec) :=
  match chunks, embeddings with
  | chunk :: chunks', embedding :: embeddings' =>
      {| text := text chunk; metadata := metadata chunk;
         embedding := Some embedding |} :: set_embeddings chunks' embeddings'
  | _, _ => chunks
  end.

Definition embed_chunks (self : TextProcessor vec) (chunks : list (TextChunk vec))
  : outcome (list (TextChunk vec)) :=
  match chunks with
  | [] => Done []
  | _ :: _ =>
      let texts := map text chunks in
      match model self texts with
      | None => Raise ProviderError
      | Some embeddings => Done (set_embeddings chunks embeddings)
      end
  end.

(** [TextProcessor.process_document]. *)
Definition process_document (self : TextProcessor vec) (fuel : nat)
    (text : pystr) (metadata : option loc) (h : heap)
  : outcome (list (TextChunk vec)) * heap :=
  let '(metadata, h) :=
    match metadata with
    | None => dict_new h
    | Some l => (l, h)
    end in
  let cleaned_text := clean_text text in
  match chunk_text self cleaned_text fuel (Some metadata) h with
  | (Done chunks, h) => (embed_chunks self chunks, h)
  | (Raise e, h) => (Raise e, h)
  | (Running, h) => (Running, h)
  end.

(** [np.array([chunk.embedding for chunk in chunks], dtype=np.float32)]:
    every embedding must be set, and all of one length. *)
Fixpoint all_set (embeddings : list (option vec)) : option (list vec) :=
  match embeddings with
  | [] => Some []
  | None :: _ => None
  | Some v :: rest =>
      match all_set rest with
      | Some vs => Some (v :: vs)
      | None => None
      end
  end.

Definition np_array (embeddings : list (option vec)) : outcome (list vec) :=
  match all_set embeddings with
  | None => Raise TypeError
  | Some [] => Done []
  | Some (v :: vs) =>
      if forallb (fun w => Nat.eqb (length w) (length v)) vs
      then Done (v :: vs) else Raise ValueError
  end.

(** Lines 64-65: [asdict(chunk)] is a deep copy, so the record holds the
    content of the chunk's dictionary; [tolist()] needs an embedding that is
    set. *)
Definition asdict (h : heap) (chunk : TextChunk vec) : option chunk_dict :=
  match embedding chunk with
  | Some e => Some {| cd_text := text chunk;
                      cd_metadata := default ∅ (h !! metadata chunk);
                      cd_embedding := AsList e |}
  | None => None
  end.

(** Lines 63-66: the loop that appends the records, one chunk at a time. *)
Fixpoint store_chunks (h : heap) (metadata_store : list chunk_dict)
    (chunks : list (TextChunk vec)) : outcome unit * list chunk_dict :=
  match chunks with
  | [] => (Done tt, metadata_store)
  | chunk :: chunks' =>
      match asdict h chunk with
      | Some chunk_dict => store_chunks h (metadata_store ++ [chunk_dict]) chunks'
      | None => (Raise AttributeError, metadata_store)
      end
  end.

(** [DocumentStore.add_document]: the result, the store and the heap the
    call leaves. *)
Definition add_document (fuel : nat) (self : DocumentStore)
    (text : pystr) (metadata : option loc) (h : heap)
  : outcome (list (TextChunk vec)) * DocumentStore * heap :=
  let '(metadata, h) :=
    match metadata with
    | None => dict_new h
    | Some l => (l, h)
    end in
  match process_document text_processor fuel text (Some metadata) h with
  | (Done [], h) => (Done [], self, h)
  | (Done chunks, h) =>
      match np_array (map embedding chunks) with
      | Done embeddings =>
          match index_add (index self) embeddings with
          | Some index' =>
              let '(stored, metadata_store') :=
                store_chunks h (metadata_store self) chunks in
              (match stored with
               | Done _ => Done chunks
               | Raise e => Raise e
               | Running => Running
               end,
               {| persist_dir := persist_dir self;
                  dimension := dimension self;
                  index := index';
                  metadata_store := metadata_store' |},
               h)
          | None => (Raise AssertionError, self, h)
          end
      | Raise e => (Raise e, self, h)
      | Running => (Running, self, h)
      end
  | (Raise e, h) => (Raise e, self, h)
  | (Running, h) => (Running, self, h)
  end.

(** [list.sort(key=lambda x: x.score, reverse=True)]: the sort is stable and
    compares keys with [<] only, so a result moves behind exactly the later
    results whose score is strictly greater. *)
Fixpoint insert_by_score (x : SearchResult) (l : list SearchResult) : list SearchResult :=
  match l with
  | [] => [x]
  | y :: l' => if flt (score x) (score y) then y :: insert_by_score x l' else x :: l
  end.

Definition sort_by_score (l : list SearchResult) : list SearchResult :=
  foldr insert_by_score [] l.

(** Lines 92-106: one turn of the loop over [zip(indices[0], distances[0])]. *)
Definition search_step (self : DocumentStore) (threshold : F)
    (results : list SearchResult) (hit : Z * F) : list SearchResult :=
  let '(idx, distance) := hit in
  if (idx <? 0) || (Z.of_nat (length (metadata_store self)) <=? idx) then results
  else
    let score := score_of_distance distance in
    if fle threshold score then
      match metadata_store self !! Z.to_nat idx with
      | Some chunk_data =>
          results ++ [{| sr_text := cd_text chunk_data;
                         sr_metadata := cd_metadata chunk_data;
                         score := score |}]
      | None => results
      end
    else results.

(** [DocumentStore.search]. *)
Definition search (self : DocumentStore) (query : pystr) (k : Z) (threshold : F)
  : outcome (list SearchResult) :=
  match encode [query] with
  | None => Raise ProviderError
  | Some [] => Raise IndexError
  | Some (query_embedding :: _) =>
      match faiss_search (vectors (index self)) query_embedding k with
      | None => Raise AssertionError
      | Some (distances, indices) =>
          let results := foldl (search_step self threshold) [] (zip indices distances) in
          Done (sort_by_score results)
      end
  end.

(** [DocumentStore.clear]. *)
Definition clear (self : DocumentStore) : DocumentStore :=
  {| persist_dir := persist_dir self;
     dimension := dimension self;
     index := {| dim := dimension self; vectors := [] |};
     metadata_store := [] |}.

(** [DocumentStore.__len__]. *)
Definition store_len (self : DocumentStore) : Z :=
  Z.of_nat (length (metadata_store self)).

(** *** Persistence *)

(** One record of [metadata.json]: an object with the members [text],
    [metadata] (an object, given by its members) and [embedding] (an array
    of numbers).  Only the values of [pyval] with a JSON form are
    written, as they are. *)
Record json_record : Type := {
  j_text : pystr;
  j_metadata : list (string * pyval);
  j_embedding : vec;
}.

(** What a file holds: a serialized index, a JSON document, or the
    beginning of one whose writer raised. *)
Inductive file : Type :=
| FaissFile (ix : IndexFlatL2)
| JsonFile (records : list json_record)
| TruncatedFile.

(** The files by path; directories are not modelled. *)
Abbreviation filesystem := (gmap string file).

Definition path_join (dir name : string) : string :=
  (dir ++ "/" ++ name)%string.

(** [json.dump] on one record: a numpy array has no JSON form, and neither
    has a metadata value that is not made of JSON values. *)
Definition json_dump_record (item : chunk_dict) : option json_record :=
  match cd_embedding item with
  | AsList xs =>
      if forallb (fun kv => json_ok kv.2) (map_to_list (cd_metadata item))
      then Some {| j_text := cd_text item;
                   j_metadata := map_to_list (cd_metadata item);
                   j_embedding := xs |}
      else None
  | AsArray _ => None
  end.

(** [DocumentStore.save]: the index is written first; when [json.dump]
    raises, the file it had opened for writing stays behind. *)
Definition save (self : DocumentStore) (path : option string) (fs : filesystem)
  : outcome unit * filesystem :=
  let path := match path with
              | None => persist_dir self
              | Some p => p
              end in
  let fs := <[path_join path "index.faiss" := FaissFile (index self)]> fs in
  match mapM json_dump_record (metadata_store self) with
  | Some records => (Done tt, <[path_join path "metadata.json" := JsonFile records]> fs)
  | None => (Raise TypeError, <[path_join path "metadata.json" := TruncatedFile]> fs)
  end.

(** Lines 156-158: the embedding of each loaded record becomes an array. *)
Definition load_record (item : json_record) : chunk_dict :=
  {| cd_text := j_text item;
     cd_metadata := list_to_map (j_metadata item);
     cd_embedding := AsArray (j_embedding item) |}.

(** [DocumentStore.load]: a class method, it starts from [cls()]. *)
Definition load (path : string) (fs : filesystem) : outcome DocumentStore :=
  let store := DocumentStore_init "data/document_store" in
  match fs !! path_join path "index.faiss" with
  | Some (FaissFile ix) =>
      match fs !! path_join path "metadata.json" with
      | Some (JsonFile metadata_list) =>
          Done {| persist_dir := persist_dir store;
                  dimension := dimension store;
                  index := ix;
                  metadata_store := map load_record metadata_list |}
      | Some _ => Raise ValueError
      | None => Raise FileNotFoundError
      end
  | Some _ => Raise ValueError
  | None => Raise FileNotFoundError
  end.

(** *** Sequences of calls *)

Inductive call : Type :=
| CallAddDocument (fuel : nat) (text : pystr) (metadata : option loc)
| CallClear.

Definition do_call (st : DocumentStore * heap) (c : call) : DocumentStore * heap :=
  match c with
  | CallAddDocument fuel text metadata =>
      let '(_, store, h) := add_document fuel st.1 text metadata st.2 in (store, h)
  | CallClear => (clear st.1, st.2)
  end.

Definition do_calls (cs : list call) (st : DocumentStore * heap) : DocumentStore * heap :=
  foldl do_call st cs.

End DocumentStore.

Arguments IndexFlatL2 : clear implicits.
Arguments chunk_dict : clear implicits.
Arguments SearchResult : clear implicits.
Arguments DocumentStore : clear implicits.
Arguments embedding_value : clear implicits.
Arguments json_record : clear implicits.
Arguments file : clear implicits.
Arguments call : clear implicits.

(** ** Vocabulary of the statements about chunks *)

(** A whitespace character. *)
Definition is_space (c : Z) : Prop := isspace c = true.

Section ChunkVocabulary.

Context {V : Type}.

(** The integer a chunk's metadata dictionary holds under [key]. *)
Definition meta_int (h : heap) (c : TextChunk V) (key : string) : option Z :=
  match h !! metadata c with
  | Some d => match d !! key with
              | Some (PInt n) => Some n
              | _ => None
              end
  | None => None
  end.

(** The half-open range [chunk_start, chunk_end) of a chunk. *)
Definition chunk_span (h : heap) (c : TextChunk V) : option (Z * Z) :=
  match meta_int h c "chunk_start", meta_int h c "chunk_end" with
  | Some s, Some e => Some (s, e)
  | _, _ => None
  end.

(** Position [p] lies in the range of one of the chunks. *)
Definition covered (h : heap) (cs : list (TextChunk V)) (p : Z) : Prop :=
  ∃ c s e, c ∈ cs ∧ chunk_span h c = Some (s, e) ∧ s ≤ p < e.

(** The dictionary an accepted chunk gets: the caller's entries and the
    three keys of lines 79-83. *)
Definition chunk_meta (d0 : dict) (s e i : Z) : dict :=
  <["chunk_id"%string := PInt i]>
    (<["chunk_end"%string := PInt e]> (<["chunk_start"%string := PInt s]> d0)).

(** The state in which [chunk_text] enters its loop. *)
Definition loop_init (h : heap) : loop_state V :=
  {| start := 0; chunks := []; hp := h |}.

End ChunkVocabulary.

(** The invariant of the loop of [chunk_text] on the text [txt], entered
    with the heap [h0] in which the caller's dictionary holds [d0]. *)
Record loop_inv {V : Type} (txt : pystr) (h0 : heap) (d0 : dict)
    (st : loop_state V) : Prop := {
  inv_start : 0 ≤ start st;
  inv_length : length (hp st) = (length h0 + length (chunks st))%nat;
  inv_frame : ∀ l d, h0 !! l = Some d → hp st !! l = Some d;
  inv_chunks : ∀ i c, chunks st !! i = Some c →
    metadata c = (length h0 + i)%nat ∧ embedding c = None ∧
    ∃ s e, hp st !! metadata c = Some (chunk_meta d0 s e (Z.of_nat i)) ∧
           0 ≤ s < e ∧ e ≤ len txt ∧ text c = strip (slice txt s e) ∧ text c ≠ [];
  inv_cover : ∀ p, 0 ≤ p < start st →
    (∃ i s e, (i < length (chunks st))%nat ∧
              hp st !! (length h0 + i)%nat = Some (chunk_meta d0 s e (Z.of_nat i)) ∧
              s ≤ p < e)
    ∨ is_space (char_at txt p);
}.

(** A string with two whitespace characters next to each other. *)
Fixpoint has_space_run (s : pystr) : bool :=
  match s with
  | c :: ((c' :: _) as s') => (isspace c && isspace c') || has_space_run s'
  | _ => false
  end.

(** The characters [clean_text] leaves as they are when it meets them
    outside a whitespace run: ASCII letters, digits, underscore and the
    punctuation of the pattern. *)
Definition kept_char (c : Z) : bool :=
  (0 <=? c) && (c <? 128) && (is_word c || is_kept_punct c).

(** A word of [split]: not empty, and without whitespace. *)
Definition word_ok (w : pystr) : Prop :=
  w ≠ [] ∧ Forall (fun c => isspace c = false) w.

(** A text of 201 letters [a]. *)
Definition long_word : pystr := repeat 97 201.

(** The text of the scenario. *)
Definition three_sentences : pystr :=
  py "Sentence one. Sentence two. Sentence three.".

(** ** Vocabulary of the statements about the store *)

Section StoreVocabulary.

Context {F : Type} `{FloatArith F}.

(** The caller's dictionary: the one passed, or a new empty one. *)
Definition caller_dict (metadata : option loc) (h : heap) : loc * heap :=
  match metadata with
  | None => dict_new h
  | Some l => (l, h)
  end.

(** What one answer of the index contributes to the results of [search]:
    the record at its position when the position is within the bounds of
    [metadata_store] and the score reaches the threshold. *)
Definition retained (self : DocumentStore F) (threshold : F) (hit : Z * F)
  : option (SearchResult F) :=
  if decide (0 ≤ hit.1 < Z.of_nat (length (metadata_store self))) then
    if fle threshold (score_of_distance hit.2) then
      chunk_data ← metadata_store self !! Z.to_nat hit.1;
      Some {| sr_text := cd_text chunk_data;
              sr_metadata := cd_metadata chunk_data;
              score := score_of_distance hit.2 |}
    else None
  else None.

(** No later result has a strictly greater score. *)
Definition score_not_below (a b : SearchResult F) : Prop :=
  flt (score a) (score b) = false.


(** The order [<] on scores is a strict weak order, as it is on floats that
    are numbers. *)
Definition flt_asymmetric : Prop :=
  ∀ a b : F, flt a b = true → flt b a = false.

Definition flt_negatively_transitive : Prop :=
  ∀ a b c : F, flt a b = false → flt b c = false → flt a c = false.

(** The embeddings of the stored records are lists, as [add_document]
    leaves them. *)
Definition embedding_is_list (item : chunk_dict F) : Prop :=
  match cd_embedding item with
  | AsList _ => True
  | AsArray _ => False
  end.

(** The values of a dictionary, and of a record's metadata, all have a JSON
    form. *)
Definition dict_is_json (d : dict) : Prop :=
  map_Forall (fun _ v => json_ok v = true) d.

Definition metadata_is_json (item : chunk_dict F) : Prop :=
  dict_is_json (cd_metadata item).

(** What [search] reads of a record. *)
Definition record_view (item : chunk_dict F) : pystr * dict :=
  (cd_text item, cd_metadata item).

End StoreVocabulary.

(** ** Stand-ins for the collaborators, with exact arithmetic *)

(** An encoder: every text becomes the vector of 384 copies of its length. *)
Definition demo_encode (texts : list pystr) : option (list (list Q)) :=
  Some (map (fun t => repeat (inject_Z (len t)) 384) texts).

(** An encoder whose call raises. *)
Definition failing_encode (texts : list pystr) : option (list (list Q)) := None.

(** A search that answers the first [k] stored positions, each with the
    distance between the first components. *)
Definition demo_search (xb : list (list Q)) (q : list Q) (k : Z)
  : option (list Q * list Z) :=
  if k <=? 0 then None
  else
    let hits := take (Z.to_nat k)
      (imap (fun i v => ((hd 0%Q v - hd 0%Q q) * (hd 0%Q v - hd 0%Q q), Z.of_nat i)%Q) xb) in
    Some (map fst hits ++ repeat 0%Q (Z.to_nat k - length hits),
          map snd hits ++ repeat (-1) (Z.to_nat k - length hits)).

(** The caller's dictionary of the scenario: [{"title": "T"}]. *)
Definition title_T : dict := {[ "title"%string := PStr (py "T") ]}.

(** The store of the scenario: a fresh store after one [add_document] of
    [three_sentences] with no metadata, embedded by [demo_encode]. *)
Definition demo_store : DocumentStore Q :=
  (add_document demo_encode 1 (DocumentStore_init "data/document_store")
     three_sentences None []).1.2.

(** A rounding is monotone and leaves 0 and 1 as they are, as the IEEE
    rounding to nearest does. *)
Definition monotone_rounding (rnd : Q → Q) : Prop :=
  (∀ x y : Q, (x <= y)%Q → (rnd x <= rnd y)%Q) ∧
  (rnd 0 == 0)%Q ∧ (rnd 1 == 1)%Q.

(** Rounding down to an integer. *)
Definition round_down (x : Q) : Q := inject_Z (Qfloor x).

(** ** The document processor and the upload route

    [document_processor/document_loader.py], the ingestion half of
    [document_processor/processor.py] and the upload route of [main.py].
    The PDF, Word and e-mail parsers, [pathlib], [tempfile] and [hash] are
    outside the repository and are parameters.  A loader's metadata is a
    dictionary of the values of [pyval]. *)

(** The three loader classes. *)
Inductive DocumentLoader : Type :=
| PDFLoader
| WordLoader
| EmailLoader.

(** How a call inside [DocumentProcessor.add_document] failed: with one of
    the exceptions of [exn], or with the [Exception] a loader raises. *)
Inductive failure : Type :=
| Raised (e : exn)
| LoaderError (loader : DocumentLoader).

(** The dictionary [DocumentProcessor.add_document] returns. *)
Inductive add_result : Type :=
| StatusSuccess (document_id : string) (chunks_processed : Z) (metadata : loc)
| StatusError (error : failure).

(** What the upload route answers: the body of a 200 answer, or the status
    code of the [HTTPException] it raises. *)
Inductive http_answer : Type :=
| Answer200 (document_id : string) (chunks_processed : Z) (metadata : loc)
| HTTPException (status_code : Z).

(** [main.get_allowed_extensions]; the set is used for membership only. *)
Definition get_allowed_extensions : list string :=
  [".pdf"; ".docx"; ".doc"; ".txt"; ".eml"]%string.

(** [x in xs] on strings. *)
Definition str_in (x : string) (xs : list string) : bool :=
  existsb (String.eqb x) xs.

Section DocumentProcessor.

Context {F : Type} `{FloatArith F}.

Variable encode : list pystr → option (list (list F)).

(** [Path(p).exists()] and [Path(p).suffix.lower()]. *)
Variable path_exists : string → bool.
Variable suffix_lower : string → string.

(** [loader.load(p)] followed by [loader.get_metadata()]: the text and the
    content of the metadata dictionary, or nothing when [load] raises. *)
Variable loader_load : DocumentLoader → string → option (pystr * dict).

(** [str(hash(p))]. *)
Variable hash_str : string → string.

(** [save_upload_file] on an upload of a given file name: the name of the
    temporary file, or nothing when it raises. *)
Variable save_upload_file : string → option string.

(** [get_document_loader]. *)
Definition get_document_loader (file_path : string) : outcome DocumentLoader :=
  if negb (path_exists file_path) then Raise FileNotFoundError
  else
    let ext := suffix_lower file_path in
    if String.eqb ext ".pdf" then Done PDFLoader
    else if str_in ext [".docx"; ".doc"]%string then Done WordLoader
    else if str_in ext [".eml"; ".msg"]%string then Done EmailLoader
    else Raise ValueError.

(** [DocumentProcessor.add_document] on the processor's document store:
    what it returns, the store, the heap and the files it leaves.  Every
    exception is caught; a call that does not return is [Running]. *)
Definition processor_add_document (fuel : nat) (document_store : DocumentStore F)
    (file_path : string) (h : heap) (fs : gmap string (file F))
  : outcome add_result * DocumentStore F * heap * gmap string (file F) :=
  match get_document_loader file_path with
  | Done loader =>
      match loader_load loader file_path with
      | Some (text, content) =>
          let metadata := length h in
          let h := h ++ [content] in
          match add_document encode fuel document_store text (Some metadata) h with
          | (Done chunks, document_store, h) =>
              match save document_store None fs with
              | (Done _, fs) =>
                  (Done (StatusSuccess (hash_str file_path)
                           (Z.of_nat (length chunks)) metadata),
                   document_store, h, fs)
              | (Raise e, fs) => (Done (StatusError (Raised e)), document_store, h, fs)
              | (Running, fs) => (Running, document_store, h, fs)
              end
          | (Raise e, document_store, h) =>
              (Done (StatusError (Raised e)), document_store, h, fs)
          | (Running, document_store, h) => (Running, document_store, h, fs)
          end
      | None => (Done (StatusError (LoaderError loader)), document_store, h, fs)
      end
  | Raise e => (Done (StatusError (Raised e)), document_store, h, fs)
  | Running => (Running, document_store, h, fs)
  end.

(** The route [POST /documents/upload] of [main.py] on an upload named
    [filename]: the [HTTPException]s raised inside the outer [try] are
    caught by its [except Exception] and raised again with status 500. *)
Definition upload_document (fuel : nat) (document_store : DocumentStore F)
    (filename : string) (h : heap) (fs : gmap string (file F))
  : outcome http_answer * DocumentStore F * heap * gmap string (file F) :=
  let file_extension := suffix_lower filename in
  if negb (str_in file_extension get_allowed_extensions)
  then (Done (HTTPException 400), document_store, h, fs)
  else
    match save_upload_file filename with
    | Some temp_file_path =>
        match processor_add_document fuel document_store temp_file_path h fs with
        | (Done (StatusSuccess document_id chunks_processed metadata),
           document_store, h, fs) =>
            (Done (Answer200 document_id chunks_processed metadata),
             document_store, h, fs)
        | (Done (StatusError _), document_store, h, fs) =>
            (Done (HTTPException 500), document_store, h, fs)
        | (Raise e, document_store, h, fs) =>
            (Done (HTTPException 500), document_store, h, fs)
        | (Running, document_store, h, fs) => (Running, document_store, h, fs)
        end
    | None => (Done (HTTPException 500), document_store, h, fs)
    end.

End DocumentProcessor.

(** ** Stand-ins for the parsers and the operating system *)

(** The part of a name from its last dot, for names in lower case. *)
Fixpoint demo_suffix (p : string) : string :=
  match p with
  | EmptyString => EmptyString
  | String c rest =>
      match demo_suffix rest with
      | EmptyString => if Ascii.eqb c (Ascii.ascii_of_nat 46) then p else EmptyString
      | s => s
      end
  end.

(** Every path exists. *)
Definition demo_exists (p : string) : bool := true.

(** Every loader reads [three_sentences] with the metadata [title_T]. *)
Definition demo_loader_load (loader : DocumentLoader) (p : string)
  : option (pystr * dict) :=
  Some (three_sentences, title_T).

(** A loader that reads 201 letters. *)
Definition long_loader_load (loader : DocumentLoader) (p : string)
  : option (pystr * dict) :=
  Some (long_word, title_T).

Definition demo_hash (p : string) : string := ("#" ++ p)%string.

(** The temporary file keeps the suffix of the upload. *)
Definition demo_save_upload_file (filename : string) : option string :=
  Some ("/tmp/tmpab12cd" ++ demo_suffix filename)%string.

(** The store of the scenario as [load] returns it: its record holds the
    embedding as an array. *)
Definition reloaded_store : DocumentStore Q :=
  {| persist_dir := "data/document_store";
     dimension := 384;
     index := index demo_store;
     metadata_store :=
       map (fun item => {| cd_text := cd_text item;
                           cd_metadata := cd_metadata item;
                           cd_embedding :=
                             match cd_embedding item with
                             | AsList xs | AsArray xs => AsArray xs
                             end |})
           (metadata_store demo_store) |}.


(** ** Facts about the string operations *)

Section PyStrFacts.

Implicit Types (s : pystr) (c i j p : Z).

Lemma rfind_from_range s c i n :
  rfind_from s c i n = -1 ∨ (i ≤ rfind_from s c i n < i + Z.of_nat n).
Proof.
  induction n as [|n IH]; simpl; [by left|].
  destruct (char_at s (i + Z.of_nat n) =? c); [right; lia|].
  destruct IH as [->|IH]; [by left | right; lia].
Qed.

Lemma rfind_lt s c i j : 0 ≤ j → rfind s c i j < j.
Proof.
  intros Hj. unfold rfind.
  destruct (rfind_from_range s c i (Z.to_nat (j - i))) as [->|H]; lia.
Qed.

Lemma lstrip_split s : ∃ ws, s = ws ++ lstrip s ∧ Forall is_space ws.
Proof.
  induction s as [|c s [ws [Hs Hws]]]; simpl.
  - by exists [].
  - destruct (isspace c) eqn:Hc.
    + exists (c :: ws). split; [simpl; congruence | by constructor].
    + by exists [].
Qed.

Lemma lstrip_nil s : lstrip s = [] → Forall is_space s.
Proof.
  intros H. destruct (lstrip_split s) as [ws [Hs Hws]].
  rewrite H, app_nil_r in Hs. by subst.
Qed.

Lemma lstrip_head s c s' : lstrip s = c :: s' → isspace c = false.
Proof.
  induction s as [|a s IH]; simpl; [done|].
  destruct (isspace a) eqn:Ha; [done|]. intros [= -> _]. done.
Qed.

Lemma strip_nil s : strip s = [] → Forall is_space s.
Proof.
  unfold strip, rstrip. intros H.
  apply (f_equal (@rev Z)) in H. rewrite rev_involutive in H. simpl in H.
  apply lstrip_nil in H. apply Forall_rev in H. rewrite rev_involutive in H.
  destruct (lstrip_split s) as [ws [Hs Hws]]. rewrite Hs.
  by apply Forall_app.
Qed.

Lemma strip_nil_inv s : Forall is_space s → strip s = [].
Proof.
  intros H. unfold strip, rstrip.
  assert (Hl : ∀ t, Forall is_space t → lstrip t = []).
  { induction 1 as [|c t Hc _ IH]; simpl; [done|]. by rewrite Hc. }
  rewrite (Hl s H). done.
Qed.

(** No whitespace at either end of a stripped string. *)
Lemma strip_head s c s' : strip s = c :: s' → isspace c = false.
Proof.
  unfold strip, rstrip. intros H.
  destruct (lstrip_split (rev (lstrip s))) as [ws [Hs Hws]].
  apply (f_equal (@rev Z)) in Hs. rewrite rev_involutive, rev_app_distr, H in Hs.
  destruct (lstrip s) as [|a t] eqn:Hl; [done|].
  simpl in Hs. injection Hs as -> _. by eapply lstrip_head.
Qed.

Lemma strip_last s c : last (strip s) = Some c → isspace c = false.
Proof.
  unfold strip, rstrip.
  destruct (lstrip (rev (lstrip s))) as [|a t] eqn:Hl; [done|].
  simpl. rewrite last_snoc. intros [= ->]. by eapply lstrip_head.
Qed.

Lemma slice_nonempty s i j : slice s i j ≠ [] → i < j.
Proof.
  unfold slice. intros H. destruct (Z.to_nat (j - i)) eqn:Hn; [done | lia].
Qed.

Lemma slice_char (P : Z → Prop) s i j p :
  0 ≤ i → Forall P (slice s i j) → i ≤ p < j → p < len s → P (char_at s p).
Proof.
  unfold slice, char_at, len. intros Hi HP Hp Hlen.
  rewrite Forall_lookup in HP.
  apply (HP (Z.to_nat (p - i))).
  rewrite nth_lookup.
  rewrite lookup_take_lt; [|lia]. rewrite lookup_drop.
  replace (Z.to_nat i + Z.to_nat (p - i))%nat with (Z.to_nat p) by lia.
  destruct (lookup_lt_is_Some_2 s (Z.to_nat p)) as [z Hz]; [lia|].
  by rewrite Hz.
Qed.

End PyStrFacts.

(** ** Facts about the chunker *)

Section HeapFacts.

Implicit Types (h : heap) (l : loc) (d : dict).

Lemma dict_copy_update h l kvs :
  dict_update (dict_copy h l).2 (dict_copy h l).1 kvs
  = h ++ [foldl (fun d kv => <[kv.1 := kv.2]> d) (default ∅ (h !! l)) kvs].
Proof.
  unfold dict_copy, dict_update. simpl.
  rewrite list_lookup_middle by done.
  rewrite insert_app_r_alt by done.
  by rewrite Nat.sub_diag.
Qed.

End HeapFacts.

Section LoopFrame.

Context {V : Type}.
Variable self : TextProcessor V.
Variable txt : pystr.
Variable md : loc.

(** One iteration leaves every dictionary that exists alone: it only
    allocates. *)
Lemma loop_body_shape st :
  let st' := loop_body self txt md st in
  let e := window_end self txt (start st) in
  start st' = next_start self txt e ∧
  ((strip (slice txt (start st) e) = [] ∧ chunks st' = chunks st ∧ hp st' = hp st)
   ∨ (strip (slice txt (start st) e) ≠ [] ∧
      chunks st' = chunks st ++
        [{| text := strip (slice txt (start st) e);
            metadata := length (hp st); embedding := None |}] ∧
      hp st' = hp st ++
        [chunk_meta (default ∅ (hp st !! md)) (start st) e
           (Z.of_nat (length (chunks st)))])).
Proof.
  cbv zeta. unfold loop_body.
  destruct (strip (slice txt (start st) (window_end self txt (start st))))
    as [|c0 ct] eqn:Hct.
  - simpl. split; [done|]. by left.
  - pose proof (dict_copy_update (hp st) md
      [("chunk_start"%string, PInt (start st));
       ("chunk_end"%string, PInt (window_end self txt (start st)));
       ("chunk_id"%string, PInt (Z.of_nat (length (chunks st))))]) as Hupd.
    destruct (dict_copy (hp st) md) as [l h1] eqn:Hcopy. simpl in Hupd.
    assert (l = length (hp st)) as -> by (unfold dict_copy in Hcopy; congruence).
    simpl. rewrite Hupd. split; [done|]. right. done.
Qed.

Lemma loop_body_frame st l d :
  hp st !! l = Some d → hp (loop_body self txt md st) !! l = Some d.
Proof.
  intros H. destruct (loop_body_shape st) as [_ [(_ & _ & ->)|(_ & _ & ->)]];
    [done|]. by apply lookup_app_l_Some.
Qed.

Lemma iterate_frame n st l d :
  hp st !! l = Some d → hp (iterate self txt n md st) !! l = Some d.
Proof.
  revert st. induction n as [|n IH]; intros st H; simpl; [done|].
  apply IH. by apply loop_body_frame.
Qed.

(** The loop is the iteration of its body for as long as its condition
    holds. *)
Lemma while_loop_iterate fuel st :
  ∃ n, (n ≤ fuel)%nat ∧
       (while_loop self txt fuel md st).2 = iterate self txt n md st ∧
       ((while_loop self txt fuel md st).1 = true →
        len txt ≤ start (iterate self txt n md st)) ∧
       ((while_loop self txt fuel md st).1 = false → n = fuel).
Proof.
  revert st. induction fuel as [|fuel IH]; intros st; simpl.
  - exists 0%nat. destruct (start st <? len txt) eqn:Hc; simpl;
      repeat split; try done; lia.
  - destruct (start st <? len txt) eqn:Hc.
    + destruct (IH (loop_body self txt md st)) as (n & Hn & H2 & H1 & H0).
      exists (S n). simpl. repeat split; try done; try lia.
      intros Hf. by rewrite (H0 Hf).
    + exists 0%nat. simpl. repeat split; try done; lia.
Qed.

End LoopFrame.

Section LoopInvariant.

Context {V : Type}.
Variable self : TextProcessor V.
Variable txt : pystr.
Hypothesis Hsize : 0 ≤ chunk_size self.
Hypothesis Hoverlap : 0 ≤ overlap self.

Lemma len_nonneg : 0 ≤ len txt.
Proof. unfold len. lia. Qed.

Lemma window_end_range st :
  0 ≤ st → 0 ≤ window_end self txt st ≤ len txt.
Proof using Hsize.
  intros Hst. unfold window_end. pose proof len_nonneg as Hlen.
  set (e0 := Z.min (st + chunk_size self) (len txt)).
  assert (0 ≤ e0 ≤ len txt) as He0 by (unfold e0; lia).
  destruct (e0 <? len txt) eqn:Hlt; [|done].
  pose proof (rfind_lt txt 46 st e0 (proj1 He0)).
  pose proof (rfind_lt txt 33 st e0 (proj1 He0)).
  pose proof (rfind_lt txt 63 st e0 (proj1 He0)).
  pose proof (Z.div_pos (chunk_size self) 2 Hsize ltac:(lia)).
  destruct (_ <? Z.max _ _) eqn:Hse; lia.
Qed.

(** A window that stops short of the end of the text is the full
    [chunk_size], or was cut after a sentence end lying beyond its middle. *)
Lemma window_end_short st :
  0 ≤ st → window_end self txt st < len txt →
  st + chunk_size self / 2 + 1 < window_end self txt st ∨
  window_end self txt st = st + chunk_size self.
Proof using Hsize.
  intros Hst. unfold window_end.
  set (e0 := Z.min (st + chunk_size self) (len txt)).
  destruct (e0 <? len txt) eqn:Hlt; [|lia].
  destruct (_ <? Z.max _ _) eqn:Hse; lia.
Qed.

Lemma next_start_range e :
  0 ≤ e → 0 ≤ next_start self txt e ≤ e.
Proof using Hoverlap.
  intros He. unfold next_start.
  destruct (overlap self <? e) eqn:Ho;
    destruct (_ && _); lia.
Qed.

(** The defect of line 87: past the first [overlap] characters the next
    window never begins at the end of the text. *)
Lemma next_start_stays st :
  0 < overlap self < len txt → 0 ≤ st < len txt →
  0 ≤ next_start self txt (window_end self txt st) < len txt.
Proof using Hsize Hoverlap.
  intros Ho Hst.
  pose proof (window_end_range st (proj1 Hst)) as He.
  pose proof (next_start_range _ (proj1 He)) as Hn.
  split; [lia|].
  unfold next_start in *.
  destruct (overlap self <? window_end self txt st) eqn:Hlt.
  - destruct (_ && _) eqn:Hb; [|lia].
    apply andb_prop in Hb as [Hb _]. lia.
  - destruct (_ && _) eqn:Hb; lia.
Qed.

Lemma while_loop_runs md fuel (st : loop_state V) :
  0 < overlap self < len txt → 0 ≤ start st < len txt →
  (while_loop self txt fuel md st).1 = false.
Proof using Hsize Hoverlap.
  intros Ho. revert st. induction fuel as [|fuel IH]; intros st Hst; simpl.
  - destruct (start st <? len txt) eqn:Hc; [done | lia].
  - destruct (start st <? len txt) eqn:Hc; [|lia].
    apply IH.
    destruct (loop_body_shape self txt md st) as [-> _].
    by apply next_start_stays.
Qed.

(** *** The invariant of the loop *)

Variable md : loc.
Variable h0 : heap.
Variable d0 : dict.
Hypothesis Hmd : h0 !! md = Some d0.

Lemma loop_inv_init : loop_inv (V := V) txt h0 d0 (loop_init h0).
Proof.
  split; simpl; try done; try lia.
Qed.

Lemma loop_inv_body st :
  loop_inv txt h0 d0 st → loop_inv txt h0 d0 (loop_body self txt md st).
Proof using Hsize Hoverlap Hmd.
  intros [Hs Hl Hf Hc Hv].
  pose proof (window_end_range _ Hs) as He.
  pose proof (next_start_range _ (proj1 He)) as Hn.
  destruct (loop_body_shape self txt md st)
    as [Hst [(Hnil & Hch & Hhp)|(Hne & Hch & Hhp)]].
  - (* the window is dropped *)
    split; rewrite ?Hst, ?Hch, ?Hhp; try done; [lia|].
    intros p Hp.
    destruct (decide (p < start st)) as [Hlt|Hge]; [apply Hv; lia|].
    right. apply strip_nil in Hnil.
    apply (slice_char is_space txt (start st) (window_end self txt (start st)));
      [done | done | lia | lia].
  - (* the window is accepted *)
    rewrite (Hf _ _ Hmd) in Hhp. simpl in Hhp.
    assert (start st < window_end self txt (start st)) as Hlt.
    { apply (slice_nonempty txt). intros Hsl. apply Hne. by rewrite Hsl. }
    split; rewrite ?Hst, ?Hch, ?Hhp.
    + lia.
    + rewrite !length_app. simpl. lia.
    + intros l d Hld. apply lookup_app_l_Some. by apply Hf.
    + intros i c Hic.
      apply lookup_app_Some in Hic as [Hic|[Hi Hic]].
      * destruct (Hc i c Hic) as (Hm & Hemb & s & e & Hd & Hb & Hle & Ht & Htn).
        repeat split; try done. exists s, e. repeat split; try done; try lia.
        by apply lookup_app_l_Some.
      * destruct (i - length (chunks st))%nat as [|k] eqn:Hk; [|by destruct k].
        injection Hic as <-. simpl.
        assert (i = length (chunks st)) as -> by lia.
        repeat split; [lia|].
        exists (start st), (window_end self txt (start st)).
        rewrite Hl. rewrite <- Hl at 1.
        rewrite list_lookup_middle by done.
        repeat split; try done; lia.
    + intros p Hp.
      destruct (decide (p < start st)) as [Hlt'|Hge].
      * destruct (Hv p ltac:(lia)) as [(i & s & e & Hi & Hd & Hr)|Hsp]; [|by right].
        left. exists i, s, e. rewrite length_app. simpl.
        repeat split; try lia. by apply lookup_app_l_Some.
      * left. exists (length (chunks st)), (start st), (window_end self txt (start st)).
        rewrite length_app. simpl. rewrite <- Hl.
        rewrite list_lookup_middle by done.
        repeat split; try done; lia.
Qed.

Lemma loop_inv_iterate n st :
  loop_inv txt h0 d0 st → loop_inv txt h0 d0 (iterate self txt n md st).
Proof using Hsize Hoverlap Hmd.
  revert st. induction n as [|n IH]; intros st H; simpl; [done|].
  apply IH. by apply loop_inv_body.
Qed.


Lemma loop_inv_covered (st : loop_state V) p :
  loop_inv txt h0 d0 st → 0 ≤ p < start st →
  covered (hp st) (chunks st) p ∨ is_space (char_at txt p).
Proof.
  intros Hinv Hp.
  destruct (inv_cover _ _ _ _ Hinv p Hp) as [(i & s & e & Hi & Hd & Hr)|Hsp]; [|by right].
  left. destruct (lookup_lt_is_Some_2 (chunks st) i Hi) as [c Hic].
  destruct (inv_chunks _ _ _ _ Hinv i c Hic) as (Hm & _).
  exists c, s, e. split; [by eapply list_elem_of_lookup_2|]. split; [|done].
  unfold chunk_span, meta_int. rewrite Hm, Hd. unfold chunk_meta.
  by simplify_map_eq.
Qed.

End LoopInvariant.

Section ChunkTextFacts.

Context {V : Type}.
Variable self : TextProcessor V.
Variable txt : pystr.

Lemma chunk_text_Some fuel md h :
  chunk_text self txt fuel (Some md) h =
  (if (while_loop self txt fuel md (loop_init h)).1
   then Done (chunks (while_loop self txt fuel md (loop_init h)).2)
   else Running,
   hp (while_loop self txt fuel md (loop_init h)).2).
Proof.
  unfold chunk_text, loop_init.
  by destruct (while_loop self txt fuel md _) as [[] st].
Qed.

Lemma chunk_text_None fuel h :
  chunk_text self txt fuel None h
  = chunk_text self txt fuel (Some (length h)) (h ++ [∅]).
Proof. done. Qed.

(** A call of [chunk_text] stops in a state that some number of iterations
    reaches; when it returns, the loop condition is false there. *)
Lemma chunk_text_iterate fuel md h :
  ∃ n, (chunk_text self txt fuel (Some md) h).2
         = hp (iterate self txt n md (loop_init h)) ∧
       ∀ cs, (chunk_text self txt fuel (Some md) h).1 = Done cs →
             cs = chunks (iterate self txt n md (loop_init h)) ∧
             len txt ≤ start (iterate self txt n md (loop_init h)).
Proof.
  rewrite chunk_text_Some.
  destruct (while_loop_iterate self txt md fuel (loop_init h)) as (n & _ & H2 & H1 & _).
  exists n. simpl. rewrite H2. split; [done|].
  intros cs. destruct (while_loop self txt fuel md (loop_init h)).1; [|done].
  intros [= <-]. split; [done|]. by apply H1.
Qed.

(** [chunk_text] only allocates: a dictionary that exists before the call
    has the same content after it. *)
Lemma chunk_text_frame fuel metadata h l d :
  h !! l = Some d → (chunk_text self txt fuel metadata h).2 !! l = Some d.
Proof.
  intros Hl. destruct metadata as [md|].
  - destruct (chunk_text_iterate fuel md h) as (n & -> & _).
    by apply iterate_frame.
  - rewrite chunk_text_None.
    destruct (chunk_text_iterate fuel (length h) (h ++ [∅])) as (n & -> & _).
    apply iterate_frame. by apply lookup_app_l_Some.
Qed.

(** With a positive overlap shorter than the text, no amount of fuel lets
    the call return. *)
Lemma chunk_text_never_returns fuel metadata h :
  0 ≤ chunk_size self → 0 < overlap self < len txt →
  (chunk_text self txt fuel metadata h).1 = Running.
Proof.
  intros Hsize Ho.
  assert (∀ md h', (chunk_text self txt fuel (Some md) h').1 = Running) as Hsome.
  { intros md h'. rewrite chunk_text_Some.
    rewrite (while_loop_runs self txt Hsize ltac:(lia) md fuel (loop_init h') Ho);
      [done|]. simpl. lia. }
  destruct metadata as [md|]; [apply Hsome|].
  rewrite chunk_text_None. apply Hsome.
Qed.

(** A new chunk is the only way for a position to become covered. *)
Lemma loop_body_covered md h0 d0 st p :
  loop_inv txt h0 d0 st →
  covered (hp (loop_body self txt md st)) (chunks (loop_body self txt md st)) p →
  covered (hp st) (chunks st) p
  ∨ (strip (slice txt (start st) (window_end self txt (start st))) ≠ []
     ∧ start st ≤ p < window_end self txt (start st)).
Proof.
  intros Hinv (c & s & e & Hin & Hspan & Hr).
  destruct (loop_body_shape self txt md st)
    as [_ [(_ & Hch & Hhp)|(Hne & Hch & Hhp)]]; rewrite Hch, Hhp in *.
  - left. by exists c, s, e.
  - apply elem_of_app in Hin as [Hin|Hin].
    + left. exists c, s, e. split; [done|]. split; [|done].
      apply list_elem_of_lookup in Hin as [i Hic].
      destruct (inv_chunks _ _ _ _ Hinv i c Hic) as (Hm & _).
      apply lookup_lt_Some in Hic.
      pose proof (inv_length _ _ _ _ Hinv) as Hl.
      unfold chunk_span, meta_int in *.
      rewrite lookup_app_l in Hspan by lia. done.
    + right. split; [done|].
      apply list_elem_of_singleton in Hin as ->.
      unfold chunk_span, meta_int in Hspan. simpl in Hspan.
      rewrite list_lookup_middle in Hspan by done.
      unfold chunk_meta in Hspan. simplify_map_eq. done.
Qed.

End ChunkTextFacts.

(** ** Facts about [clean_text] *)

Section CleanTextFacts.

Implicit Types (s t w : pystr) (ws : list pystr) (c : Z).

Lemma split_words s : Forall word_ok (split s).
Proof.
  induction s as [|c s IH]; simpl; [constructor|].
  destruct (isspace c) eqn:Hc; [done|].
  destruct s as [|c' s']; [repeat constructor; done|].
  destruct (isspace c') eqn:Hc'.
  - constructor; [|done]. split; [done|]. by repeat constructor.
  - destruct (split (c' :: s')) as [|w ws] eqn:Hsp.
    + repeat constructor; done.
    + apply Forall_cons in IH as [[Hw1 Hw2] Hws].
      constructor; [|done]. split; [done|]. by constructor.
Qed.

Lemma split_elem s w c : w ∈ split s → c ∈ w → c ∈ s.
Proof.
  revert w. induction s as [|a s IH]; simpl; intros w Hw Hc.
  - by apply elem_of_nil in Hw.
  - destruct (isspace a) eqn:Ha; [right; by eapply IH|].
    destruct s as [|c' s'].
    { apply list_elem_of_singleton in Hw as ->. done. }
    destruct (isspace c') eqn:Hc'.
    + apply elem_of_cons in Hw as [->|Hw].
      * apply list_elem_of_singleton in Hc as ->. by left.
      * right. by eapply IH.
    + destruct (split (c' :: s')) as [|w' ws] eqn:Hsp.
      * apply list_elem_of_singleton in Hw as ->.
        apply list_elem_of_singleton in Hc as ->. by left.
      * apply elem_of_cons in Hw as [->|Hw].
        -- apply elem_of_cons in Hc as [->|Hc]; [by left|].
           right. apply (IH w'); [by left | done].
        -- right. apply (IH w); [by right | done].
Qed.

Lemma join_elem ws c :
  c ∈ join [32] ws → c = 32 ∨ ∃ w, w ∈ ws ∧ c ∈ w.
Proof.
  induction ws as [|w ws IH]; simpl; [by intros ?%elem_of_nil|].
  destruct ws as [|w' ws'].
  - intros Hc. right. exists w. split; [by left | done].
  - intros Hc. apply elem_of_app in Hc as [Hc|Hc].
    { right. exists w. split; [by left | done]. }
    apply elem_of_cons in Hc as [->|Hc]; [by left|].
    destruct (IH Hc) as [->|(w0 & Hw0 & Hc0)]; [by left|].
    right. exists w0. split; [by right | done].
Qed.

(** The joined words begin and end with a character that is not
    whitespace, and hold no whitespace run. *)
Lemma join_head ws c t :
  Forall word_ok ws → join [32] ws = c :: t → isspace c = false.
Proof.
  intros Hws. destruct Hws as [|w ws [Hne Hw] Hws]; simpl; [done|].
  destruct w as [|a w]; [done|].
  apply Forall_cons in Hw as [Ha _].
  destruct ws; simpl; by intros [= <- _].
Qed.

Lemma join_last ws c :
  Forall word_ok ws → last (join [32] ws) = Some c → isspace c = false.
Proof.
  induction 1 as [|w ws [Hne Hw] Hws IH]; [done|].
  destruct ws as [|w' ws'].
  - simpl. intros Hl. apply last_Some in Hl as [l' ->].
    apply Forall_app in Hw as [_ Hw]. by apply Forall_cons in Hw as [Hc _].
  - change (join [32] (w :: w' :: ws')) with (w ++ 32 :: join [32] (w' :: ws')).
    rewrite last_app, last_cons.
    destruct (last (join [32] (w' :: ws'))) as [y|] eqn:Hl.
    + intros [= ->]. by apply IH.
    + exfalso. apply last_None in Hl.
      apply Forall_cons in Hws as [[Hne' _] _].
      destruct ws'; simpl in Hl; [done | by destruct w'].
Qed.

Lemma has_space_run_word w t :
  word_ok w → has_space_run (w ++ 32 :: t) = has_space_run (32 :: t).
Proof.
  intros [Hne Hw]. induction w as [|a w IH]; [done|].
  apply Forall_cons in Hw as [Ha Hw].
  destruct w as [|b w].
  - simpl. by rewrite Ha.
  - change (has_space_run ((a :: b :: w) ++ 32 :: t))
      with ((isspace a && isspace b) || has_space_run ((b :: w) ++ 32 :: t)).
    rewrite Ha. simpl orb. by apply IH.
Qed.

Lemma has_space_run_nonspace w :
  Forall (fun c => isspace c = false) w → has_space_run w = false.
Proof.
  induction 1 as [|a w Ha Hw IH]; [done|].
  destruct w as [|b w]; [done|].
  change (has_space_run (a :: b :: w))
    with ((isspace a && isspace b) || has_space_run (b :: w)).
  by rewrite Ha.
Qed.

Lemma join_no_space_run ws :
  Forall word_ok ws → has_space_run (join [32] ws) = false.
Proof.
  induction 1 as [|w ws Hw Hws IH]; [done|].
  destruct ws as [|w' ws'].
  - simpl. apply has_space_run_nonspace, Hw.
  - change (join [32] (w :: w' :: ws')) with (w ++ 32 :: join [32] (w' :: ws')).
    rewrite has_space_run_word by done.
    destruct (join [32] (w' :: ws')) as [|c t] eqn:Hj; [done|].
    change (has_space_run (32 :: c :: t))
      with ((isspace 32 && isspace c) || has_space_run (c :: t)).
    by rewrite (join_head _ _ _ Hws Hj), IH.
Qed.

Lemma lstrip_elem s c : c ∈ lstrip s → c ∈ s.
Proof.
  destruct (lstrip_split s) as [ws [Hs _]]. intros Hc.
  rewrite Hs. apply elem_of_app. by right.
Qed.

Lemma strip_elem s c : c ∈ strip s → c ∈ s.
Proof.
  unfold strip, rstrip. intros Hc.
  apply list_elem_of_In, in_rev, list_elem_of_In in Hc.
  apply lstrip_elem in Hc.
  apply list_elem_of_In, in_rev, list_elem_of_In in Hc.
  by apply lstrip_elem.
Qed.

Lemma strip_id s :
  (∀ c t, s = c :: t → isspace c = false) →
  (∀ c, last s = Some c → isspace c = false) →
  strip s = s.
Proof.
  intros Hh Hl. unfold strip, rstrip.
  assert (lstrip s = s) as ->.
  { destruct s as [|c t]; [done|]. simpl. by rewrite (Hh c t). }
  destruct (rev s) as [|c t] eqn:Hr.
  - simpl. by rewrite <- (rev_involutive s), Hr.
  - simpl. rewrite (Hl c).
    + by rewrite <- Hr, rev_involutive.
    + rewrite <- (rev_involutive s), Hr. simpl. by rewrite last_snoc.
Qed.

Lemma encode_ascii_id s :
  Forall (fun c => 0 ≤ c < 128) s → encode_ascii_ignore s = s.
Proof.
  unfold encode_ascii_ignore. induction 1 as [|c s Hc Hs IH]; [done|].
  rewrite filter_cons_True by done. by rewrite IH.
Qed.

(** On a text whose characters are whitespace or kept characters, only the
    first step of [clean_text] changes anything. *)
Lemma clean_text_kept raw :
  Forall (fun c => isspace c = true ∨ kept_char c = true) raw →
  clean_text raw = join [32] (split raw).
Proof.
  intros Hraw. unfold clean_text, decode_ascii.
  pose proof (split_words raw) as Hws.
  assert (Forall (fun c => c = 32 ∨ kept_char c = true) (join [32] (split raw))) as Hj.
  { apply Forall_forall. intros c Hc.
    apply join_elem in Hc as [->|(w & Hw & Hc)]; [by left|]. right.
    rewrite Forall_forall in Hraw.
    destruct (Hraw c (split_elem _ _ _ Hw Hc)) as [Hsp|Hk]; [|done].
    rewrite Forall_forall in Hws. destruct (Hws w Hw) as [_ Hns].
    rewrite Forall_forall in Hns. by rewrite (Hns c Hc) in Hsp. }
  rewrite encode_ascii_id.
  2:{ eapply Forall_impl; [exact Hj|]. intros c [->|Hk]; [lia|].
      unfold kept_char in Hk. lia. }
  assert (map (fun c => if is_word c || isspace c || is_kept_punct c then c else 32)
            (join [32] (split raw)) = join [32] (split raw)) as ->.
  { induction Hj as [|c l Hc Hl IH]; [done|]. simpl. rewrite IH. f_equal.
    destruct Hc as [->|Hk]; [done|].
    unfold kept_char in Hk. apply andb_prop in Hk as [_ Hk].
    destruct (is_word c), (is_kept_punct c), (isspace c); done. }
  apply strip_id.
  - intros c t. by apply join_head.
  - intros c. by apply join_last.
Qed.

End CleanTextFacts.

Section CleanTextOutput.

(** The only whitespace [clean_text] leaves is the space. *)
Lemma clean_text_space raw c :
  c ∈ clean_text raw → isspace c = true → c = 32.
Proof.
  unfold clean_text, decode_ascii, encode_ascii_ignore. intros Hc Hsp.
  apply strip_elem in Hc.
  apply list_elem_of_fmap in Hc as (c0 & -> & Hc0).
  apply list_elem_of_filter in Hc0 as [_ Hc0].
  destruct (is_word c0 || isspace c0 || is_kept_punct c0); [|done].
  apply join_elem in Hc0 as [->|(w & Hw & Hc0)]; [done|].
  pose proof (split_words raw) as Hws.
  rewrite Forall_forall in Hws. destruct (Hws w Hw) as [_ Hns].
  rewrite Forall_forall in Hns. by rewrite (Hns c0 Hc0) in Hsp.
Qed.

End CleanTextOutput.

(** ** Facts about the document store *)

Section StoreFacts.

Context {F : Type} `{FloatArith F}.
Variable encode : list pystr → option (list (list F)).
Variable faiss_search : list (list F) → list F → Z → option (list F * list Z).

Implicit Types (self : DocumentStore F) (h : heap) (cs : list (TextChunk (list F))).

(** *** [add_document] *)

Lemma set_embeddings_length cs embs :
  length (set_embeddings cs embs) = length cs.
Proof.
  revert embs. induction cs as [|c cs IH]; intros [|e embs]; simpl; try done.
  by rewrite IH.
Qed.

Lemma all_set_Some cs embs :
  all_set (map embedding cs) = Some embs →
  map embedding cs = map Some embs.
Proof.
  revert embs. induction cs as [|c cs IH]; intros embs; simpl.
  - by intros [= <-].
  - destruct (embedding c) as [e|]; [|done].
    destruct (all_set (map embedding cs)) as [vs|]; [|done].
    intros [= <-]. simpl. by rewrite (IH vs).
Qed.

Lemma np_array_Done cs embs :
  np_array (map embedding cs) = Done embs →
  all_set (map embedding cs) = Some embs.
Proof.
  unfold np_array. destruct (all_set (map embedding cs)) as [[|v vs]|]; [| |done].
  - by intros [= <-].
  - destruct (forallb _ vs); [|done]. by intros [= <-].
Qed.

(** Once every embedding is set, the loop of lines 63-66 appends one record
    for each chunk. *)
Lemma store_chunks_all_set h ms cs embs :
  all_set (map embedding cs) = Some embs →
  ∃ records, mapM (asdict h) cs = Some records ∧
             store_chunks h ms cs = (Done tt, ms ++ records) ∧
             length records = length cs.
Proof.
  revert ms embs. induction cs as [|c cs IH]; intros ms embs; simpl.
  - intros _. exists []. by rewrite app_nil_r.
  - destruct (embedding c) as [e|] eqn:He; [|done].
    destruct (all_set (map embedding cs)) as [vs|] eqn:Hvs; [|done].
    intros _.
    destruct (asdict h c) as [rec|] eqn:Hc;
      [|unfold asdict in Hc; by rewrite He in Hc].
    destruct (IH (ms ++ [rec]) vs eq_refl) as (records & Hm & Hs & Hl).
    exists (rec :: records). rewrite Hm. simpl. split; [done|].
    rewrite Hs, <- app_assoc. simpl. split; [done | by rewrite Hl].
Qed.

Lemma index_add_Some (ix : IndexFlatL2 F) x ix' :
  index_add ix x = Some ix' →
  dim ix' = dim ix ∧ vectors ix' = vectors ix ++ x.
Proof.
  unfold index_add. destruct (forallb _ x); [|done]. by intros [= <-].
Qed.

(** The ways a call of [add_document] can end. *)
Lemma add_document_cases fuel self doc metadata h :
  let r := add_document encode fuel self doc metadata h in
  match r.1.1 with
  | Done cs =>
      (cs = [] ∧ r.1.2 = self)
      ∨ (cs ≠ [] ∧ ∃ embs records,
           map embedding cs = map Some embs ∧
           mapM (asdict r.2) cs = Some records ∧
           length records = length cs ∧
           persist_dir r.1.2 = persist_dir self ∧
           dimension r.1.2 = dimension self ∧
           dim (index r.1.2) = dim (index self) ∧
           vectors (index r.1.2) = vectors (index self) ++ embs ∧
           metadata_store r.1.2 = metadata_store self ++ records)
  | Raise _ | Running => r.1.2 = self
  end.
Proof.
  cbv zeta. unfold add_document.
  destruct (match metadata with None => dict_new h | Some l => (l, h) end) as [md h1].
  destruct (process_document _ fuel doc (Some md) h1) as [[cs|e|] h2]; [|done|done].
  destruct cs as [|c cs]; [by left|].
  destruct (np_array (map embedding (c :: cs))) as [embs|e|] eqn:Hnp; [|done|done].
  destruct (index_add (index self) embs) as [ix'|] eqn:Hix; [|done].
  apply np_array_Done in Hnp.
  destruct (store_chunks_all_set h2 (metadata_store self) (c :: cs) embs Hnp)
    as (records & Hm & Hs & Hl).
  rewrite Hs. simpl.
  apply index_add_Some in Hix as [Hd Hv].
  right. split; [done|]. exists embs, records.
  split; [exact (all_set_Some (c :: cs) embs Hnp)|]. repeat split; done.
Qed.

(** Where the result of [add_document] comes from: the chunks of the
    cleaned text. *)
Lemma add_document_chunking fuel self doc metadata h :
  let r := add_document encode fuel self doc metadata h in
  let c := chunk_text (text_processor encode) (clean_text doc) fuel
             (Some (caller_dict metadata h).1) (caller_dict metadata h).2 in
  r.2 = c.2 ∧
  match c.1 with
  | Done [] => r.1.1 = Done []
  | Done cs => encode (map text cs) = None → r.1.1 = Raise ProviderError
  | Raise e => r.1.1 = Raise e
  | Running => r.1.1 = Running
  end.
Proof.
  cbv zeta. unfold add_document, caller_dict, process_document.
  destruct (match metadata with None => dict_new h | Some l => (l, h) end) as [md h1].
  cbn [fst snd].
  destruct (chunk_text _ (clean_text doc) fuel (Some md) h1) as [[cs|e|] h2];
    cbn [fst snd]; [|done|done].
  split.
  - destruct (embed_chunks _ cs) as [[|c' cs']|e|]; try done.
    destruct (np_array _) as [es| |]; [|done|done].
    destruct (index_add _ es); [|done].
    by destruct (store_chunks _ _ _).
  - destruct cs as [|c cs]; [done|].
    intros Henc. unfold embed_chunks, text_processor. cbn [model TextProcessor_init].
    by rewrite Henc.
Qed.

Lemma add_document_frame fuel self doc metadata h l d :
  h !! l = Some d →
  (add_document encode fuel self doc metadata h).2 !! l = Some d.
Proof.
  intros Hl.
  destruct (add_document_chunking fuel self doc metadata h) as [-> _].
  apply chunk_text_frame. unfold caller_dict.
  destruct metadata; simpl; [done|]. by apply lookup_app_l_Some.
Qed.

(** *** The order of the results *)



Lemma insert_by_score_hd y x l :
  score_not_below y x → HdRel score_not_below y l →
  HdRel score_not_below y (insert_by_score x l).
Proof.
  intros Hyx Hyl. destruct l as [|z l]; simpl; [by constructor|].
  destruct (flt (score x) (score z)); constructor; [|done].
  by inversion Hyl.
Qed.

Lemma insert_by_score_sorted x l :
  flt_asymmetric →
  Sorted score_not_below l → Sorted score_not_below (insert_by_score x l).
Proof.
  intros Hasym. induction 1 as [|y l Hl IH Hy]; simpl; [by repeat constructor|].
  destruct (flt (score x) (score y)) eqn:Hxy.
  - constructor; [done|]. apply insert_by_score_hd; [|done]. by apply Hasym.
  - constructor; [by constructor|]. by constructor.
Qed.

Lemma sort_by_score_sorted l :
  flt_asymmetric → Sorted score_not_below (sort_by_score l).
Proof.
  intros Hasym. induction l as [|x l IH]; simpl; [constructor|].
  by apply insert_by_score_sorted.
Qed.



(** *** The loop of [search] *)

Lemma search_step_retained self threshold results hit :
  search_step self threshold results hit
  = results ++ option_list (retained self threshold hit).
Proof.
  destruct hit as [idx distance]. unfold search_step, retained. simpl.
  destruct (decide _) as [Hin|Hout].
  - replace ((idx <? 0) || (Z.of_nat (length (metadata_store self)) <=? idx))
      with false by lia.
    destruct (fle threshold (score_of_distance distance)); [|by rewrite app_nil_r].
    destruct (metadata_store self !! Z.to_nat idx); simpl; [done|].
    by rewrite app_nil_r.
  - replace ((idx <? 0) || (Z.of_nat (length (metadata_store self)) <=? idx))
      with true by lia.
    by rewrite app_nil_r.
Qed.

Lemma search_loop self threshold results hits :
  foldl (search_step self threshold) results hits
  = results ++ omap (retained self threshold) hits.
Proof.
  revert results. induction hits as [|hit hits IH]; intros results; simpl.
  - by rewrite app_nil_r.
  - rewrite IH, search_step_retained, <- app_assoc. f_equal.
    by destruct (retained self threshold hit).
Qed.

Lemma retained_Some self threshold hit r :
  retained self threshold hit = Some r ↔
  ∃ chunk_data,
    0 ≤ hit.1 < Z.of_nat (length (metadata_store self)) ∧
    metadata_store self !! Z.to_nat hit.1 = Some chunk_data ∧
    fle threshold (score_of_distance hit.2) = true ∧
    r = {| sr_text := cd_text chunk_data; sr_metadata := cd_metadata chunk_data;
           score := score_of_distance hit.2 |}.
Proof.
  unfold retained. split.
  - destruct (decide _) as [Hin|]; [|done].
    destruct (fle threshold _); [|done].
    destruct (metadata_store self !! Z.to_nat hit.1) as [cd|]; [|done].
    simpl. intros [= <-]. by exists cd.
  - intros (cd & Hin & Hcd & Hth & ->).
    rewrite decide_True by done. by rewrite Hth, Hcd.
Qed.

(** [search] reads the vectors of the index, and the text and metadata of
    the records. *)
Lemma search_ext self1 self2 query k threshold :
  vectors (index self1) = vectors (index self2) →
  map record_view (metadata_store self1) = map record_view (metadata_store self2) →
  search encode faiss_search self1 query k threshold
  = search encode faiss_search self2 query k threshold.
Proof.
  intros Hv Hm. unfold search. rewrite Hv.
  destruct (encode [query]) as [[|qv ?]|]; try done.
  destruct (faiss_search _ qv k) as [[distances indices]|]; [|done].
  f_equal. f_equal. rewrite !search_loop. f_equal.
  assert (record_view <$> metadata_store self1
          = record_view <$> metadata_store self2) as Hm' by exact Hm.
  assert (∀ hit, retained self1 threshold hit = retained self2 threshold hit) as Hret.
  { intros hit. unfold retained.
    assert (length (metadata_store self1) = length (metadata_store self2)) as Hl.
    { by rewrite <- (length_fmap record_view), Hm', length_fmap. }
    rewrite Hl. destruct (decide _); [|done].
    destruct (fle threshold _); [|done].
    assert (record_view <$> metadata_store self1 !! Z.to_nat hit.1
            = record_view <$> metadata_store self2 !! Z.to_nat hit.1) as Hlk.
    { by rewrite <- !list_lookup_fmap, Hm'. }
    destruct (metadata_store self1 !! Z.to_nat hit.1) as [cd1|],
             (metadata_store self2 !! Z.to_nat hit.1) as [cd2|]; try done.
    simpl in *. injection Hlk as Ht Hmeta. by rewrite Ht, Hmeta. }
  apply list_omap_ext, Forall_Forall2_diag, Forall_forall.
  intros hit _. apply Hret.
Qed.

(** *** Persistence *)

(** [json.dump] writes a dictionary exactly when all its values have a JSON
    form. *)
Lemma json_values_ok (d : dict) :
  forallb (fun kv => json_ok kv.2) (map_to_list d) = true ↔ dict_is_json d.
Proof.
  unfold dict_is_json. rewrite map_Forall_to_list, forallb_forall, Forall_forall.
  split.
  - intros Hall [k v] Hin. apply (Hall (k, v)). by apply list_elem_of_In.
  - intros Hall [k v] Hin. apply (Hall (k, v)). by apply list_elem_of_In.
Qed.

Lemma json_dump_record_Some (item : chunk_dict F) rec :
  json_dump_record item = Some rec ↔
  embedding_is_list item ∧ metadata_is_json item ∧
  ∃ xs, cd_embedding item = AsList xs ∧
        rec = {| j_text := cd_text item;
                 j_metadata := map_to_list (cd_metadata item);
                 j_embedding := xs |}.
Proof.
  unfold json_dump_record, embedding_is_list, metadata_is_json.
  rewrite <- json_values_ok.
  destruct (cd_embedding item) as [xs|xs].
  - destruct (forallb _ _); split.
    + intros [= <-]. split; [done|]. split; [done|]. by exists xs.
    + by intros (_ & _ & ys & [= <-] & ->).
    + done.
    + by intros (_ & ? & _).
  - split; [done|]. by intros ([] & _).
Qed.

Lemma json_dump_lists (ms : list (chunk_dict F)) :
  Forall embedding_is_list ms → Forall metadata_is_json ms →
  ∃ records, mapM json_dump_record ms = Some records ∧
             map record_view (map load_record records) = map record_view ms.
Proof.
  induction 1 as [|item ms Hitem Hms IH]; intros Hjson; simpl.
  - by exists [].
  - apply Forall_cons in Hjson as [Hj Hjson].
    destruct (IH Hjson) as (records & Hr & Hv).
    unfold embedding_is_list in Hitem.
    destruct (cd_embedding item) as [xs|] eqn:Hxs; [|done].
    assert (json_dump_record item
            = Some {| j_text := cd_text item;
                      j_metadata := map_to_list (cd_metadata item);
                      j_embedding := xs |}) as Hrec.
    { apply json_dump_record_Some. split; [|split; [done|by exists xs]].
      unfold embedding_is_list. by rewrite Hxs. }
    rewrite Hrec. eexists. split; [simpl; by rewrite Hr|].
    simpl. f_equal; [|exact Hv].
    unfold record_view, load_record. simpl. by rewrite list_to_map_to_list.
Qed.

(** What [json.dump] has written came from records with list embeddings and
    JSON values. *)
Lemma json_dump_Some (ms : list (chunk_dict F)) records :
  mapM json_dump_record ms = Some records →
  Forall embedding_is_list ms ∧ Forall metadata_is_json ms.
Proof.
  intros Hm. apply mapM_Some_1 in Hm.
  induction Hm as [|item rec ms records Hrec _ [IH1 IH2]]; [done|].
  apply json_dump_record_Some in Hrec as (Hl & Hj & _).
  split; by constructor.
Qed.

Lemma json_dump_array (ms : list (chunk_dict F)) item :
  item ∈ ms → ¬ embedding_is_list item → mapM json_dump_record ms = None.
Proof.
  intros Hin Hitem. apply eq_None_not_Some. intros [records Hr].
  apply json_dump_Some in Hr as [Hl _].
  rewrite Forall_forall in Hl. by apply Hitem, Hl.
Qed.

End StoreFacts.

(** ** Dictionaries of JSON values *)

Section JsonFacts.

Context {V : Type}.
Variable self : TextProcessor V.
Variable txt : pystr.
Variable md : loc.

Lemma chunk_meta_json d0 s e i :
  dict_is_json d0 → dict_is_json (chunk_meta d0 s e i).
Proof.
  intros Hd. unfold chunk_meta, dict_is_json.
  by repeat (apply map_Forall_insert_2; [done|]).
Qed.

Lemma default_dict_json (h : heap) l :
  Forall dict_is_json h → dict_is_json (default ∅ (h !! l)).
Proof.
  intros Hh. destruct (h !! l) as [d|] eqn:Hl; simpl.
  - rewrite Forall_forall in Hh. apply Hh. by eapply list_elem_of_lookup_2.
  - apply map_Forall_empty.
Qed.

(** The loop of [chunk_text] adds dictionaries of JSON values to a heap of
    such dictionaries. *)
Lemma loop_body_json st :
  Forall dict_is_json (hp st) → Forall dict_is_json (hp (loop_body self txt md st)).
Proof.
  intros Hh.
  destruct (loop_body_shape self txt md st) as [_ [(_ & _ & ->)|(_ & _ & ->)]];
    [done|].
  apply Forall_app. split; [done|]. constructor; [|done].
  by apply chunk_meta_json, default_dict_json.
Qed.

Lemma iterate_json n st :
  Forall dict_is_json (hp st) → Forall dict_is_json (hp (iterate self txt n md st)).
Proof.
  revert st. induction n as [|n IH]; intros st Hh; simpl; [done|].
  by apply IH, loop_body_json.
Qed.

End JsonFacts.

Section JsonStoreFacts.

Context {F : Type} `{FloatArith F}.
Variable encode : list pystr → option (list (list F)).

Lemma chunk_text_json {V : Type} (self : TextProcessor V) txt fuel metadata h :
  Forall dict_is_json h →
  Forall dict_is_json (chunk_text self txt fuel metadata h).2.
Proof.
  intros Hh. destruct metadata as [md|].
  - destruct (chunk_text_iterate self txt fuel md h) as (n & -> & _).
    by apply iterate_json.
  - rewrite chunk_text_None.
    destruct (chunk_text_iterate self txt fuel (length h) (h ++ [∅])) as (n & -> & _).
    apply iterate_json. simpl. apply Forall_app. split; [done|].
    constructor; [apply map_Forall_empty|done].
Qed.

(** [add_document] keeps the heap one of JSON dictionaries. *)
Lemma add_document_heap_json fuel (self : DocumentStore F) doc metadata h :
  Forall dict_is_json h →
  Forall dict_is_json (add_document encode fuel self doc metadata h).2.
Proof.
  intros Hh.
  destruct (add_document_chunking encode fuel self doc metadata h) as [-> _].
  apply chunk_text_json. unfold caller_dict.
  destruct metadata; simpl; [done|].
  apply Forall_app. split; [done|]. constructor; [apply map_Forall_empty|done].
Qed.

(** [asdict] copies JSON dictionaries into the records. *)
Lemma asdict_json h (cs : list (TextChunk (list F))) records :
  Forall dict_is_json h →
  mapM (asdict h) cs = Some records → Forall metadata_is_json records.
Proof.
  intros Hh Hm. apply mapM_Some_1 in Hm.
  induction Hm as [|c rec cs records Hrec _ IH]; constructor; [|done].
  unfold asdict in Hrec. destruct (embedding c); [|done].
  injection Hrec as <-. unfold metadata_is_json. simpl.
  by apply default_dict_json.
Qed.

Lemma add_document_json fuel (self : DocumentStore F) doc metadata h :
  Forall dict_is_json h →
  Forall metadata_is_json (metadata_store self) →
  Forall metadata_is_json
    (metadata_store (add_document encode fuel self doc metadata h).1.2).
Proof.
  intros Hh Hself.
  pose proof (add_document_heap_json fuel self doc metadata h Hh) as Hh'.
  pose proof (add_document_cases encode fuel self doc metadata h) as Hcases.
  cbv zeta in Hcases.
  destruct (add_document encode fuel self doc metadata h) as [[out s'] h'].
  simpl in *. destruct out as [cs| |]; try by subst.
  destruct Hcases as [[_ ->]|[_ (embs & records & _ & Hm & _ & _ & _ & _ & _ & ->)]];
    [done|].
  apply Forall_app. split; [done|]. by eapply asdict_json.
Qed.


End JsonStoreFacts.

(** ** A text that fits in one window *)

Section OneWindow.

Context {V : Type}.
Variable self : TextProcessor V.
Variable txt : pystr.

(** When the first window is accepted and the next start is at the end of
    the text, the loop runs once. *)
Lemma chunk_text_one_window fuel md h d0 e :
  h !! md = Some d0 →
  0 < len txt →
  window_end self txt 0 = e →
  strip (slice txt 0 e) ≠ [] →
  len txt ≤ next_start self txt e →
  chunk_text self txt (S fuel) (Some md) h
  = (Done [{| text := strip (slice txt 0 e); metadata := length h;
              embedding := None |}],
     h ++ [chunk_meta d0 0 e 0]).
Proof.
  intros Hmd Hlen He Hne Hnext.
  rewrite chunk_text_Some. simpl.
  replace (0 <? len txt) with true by lia.
  destruct (loop_body_shape self txt md (loop_init h))
    as [Hst [(Hnil & _)|(_ & Hch & Hhp)]].
  { simpl in Hnil. by rewrite He in Hnil. }
  simpl in Hst, Hch, Hhp. rewrite He in Hst, Hch, Hhp. rewrite Hmd in Hhp.
  assert (while_loop self txt fuel md (loop_body self txt md (loop_init h))
          = (true, loop_body self txt md (loop_init h))) as ->.
  { destruct fuel; simpl; rewrite Hst;
      by replace (next_start self txt e <? len txt) with false by lia. }
  simpl. by rewrite Hch, Hhp.
Qed.

End OneWindow.

Section ShortText.

Context {V : Type}.
Variable self : TextProcessor V.
Variable txt : pystr.

(** A text no longer than the window and than the overlap is chunked in one
    iteration at most: these are the texts on which line 87 keeps
    [start = end]. *)
Lemma chunk_text_returns_short fuel metadata h :
  len txt ≤ chunk_size self → len txt ≤ overlap self →
  ∃ cs, (chunk_text self txt (S fuel) metadata h).1 = Done cs ∧ (length cs ≤ 1)%nat.
Proof.
  intros Hsize Hoverlap.
  assert (∀ md h', ∃ cs, (chunk_text self txt (S fuel) (Some md) h').1 = Done cs
                         ∧ (length cs ≤ 1)%nat) as Hsome.
  { intros md h'. rewrite chunk_text_Some. simpl.
    destruct (0 <? len txt) eqn:Hlen; [|exists []; simpl; split; [done | lia]].
    assert (window_end self txt 0 = len txt) as He.
    { unfold window_end.
      replace (Z.min (0 + chunk_size self) (len txt)) with (len txt) by lia.
      by rewrite Z.ltb_irrefl. }
    assert (next_start self txt (len txt) = len txt) as Hn.
    { unfold next_start.
      replace (overlap self <? len txt) with false by lia.
      by rewrite Z.eqb_refl, Z.ltb_irrefl. }
    destruct (loop_body_shape self txt md (loop_init h')) as [Hst Hshape].
    simpl in Hst, Hshape. rewrite He in Hst, Hshape. rewrite Hn in Hst.
    assert (while_loop self txt fuel md (loop_body self txt md (loop_init h'))
            = (true, loop_body self txt md (loop_init h'))) as ->.
    { destruct fuel; simpl; rewrite Hst; by rewrite Z.ltb_irrefl. }
    simpl. eexists. split; [done|].
    destruct Hshape as [(_ & -> & _)|(_ & -> & _)]; simpl; lia. }
  destruct metadata as [md|]; [apply Hsome|].
  rewrite chunk_text_None. apply Hsome.
Qed.

End ShortText.

(** ** Facts about [save] and [load] *)

Section PersistFacts.

Context {F : Type} `{FloatArith F}.
Variable encode : list pystr → option (list (list F)).
Variable faiss_search : list (list F) → list F → Z → option (list F * list Z).

Lemma path_join_files dir :
  path_join dir "index.faiss" ≠ path_join dir "metadata.json".
Proof.
  unfold path_join. induction dir as [|a dir IH]; simpl; [done|].
  intros [= Heq]. by apply IH.
Qed.

(** [asdict] leaves a list under ['embedding']. *)
Lemma asdict_lists h (cs : list (TextChunk (list F))) records :
  mapM (asdict h) cs = Some records → Forall embedding_is_list records.
Proof.
  intros Hm. apply mapM_Some_1 in Hm.
  induction Hm as [|c rec cs records Hrec _ IH]; constructor; [|done].
  unfold asdict in Hrec. destruct (embedding c); [|done].
  by injection Hrec as <-.
Qed.

Lemma add_document_lists fuel (self : DocumentStore F) doc metadata h :
  Forall embedding_is_list (metadata_store self) →
  Forall embedding_is_list
    (metadata_store (add_document encode fuel self doc metadata h).1.2).
Proof.
  intros Hself.
  pose proof (add_document_cases encode fuel self doc metadata h) as Hcases.
  cbv zeta in Hcases.
  destruct (add_document encode fuel self doc metadata h) as [[out s'] h'].
  simpl in *. destruct out as [cs| |]; try by subst.
  destruct Hcases as [[_ ->]|[_ (embs & records & _ & Hm & _ & _ & _ & _ & _ & ->)]];
    [done|].
  apply Forall_app. split; [done|]. by eapply asdict_lists.
Qed.


(** A store whose records hold lists and JSON values is written and read
    back with the same index, texts and metadata, hence with the same
    answers. *)
Lemma save_load_roundtrip (self : DocumentStore F) path fs :
  Forall embedding_is_list (metadata_store self) →
  Forall metadata_is_json (metadata_store self) →
  (save self path fs).1 = Done tt ∧
  ∃ loaded,
    load (default (persist_dir self) path) (save self path fs).2 = Done loaded ∧
    index loaded = index self ∧
    map record_view (metadata_store loaded) = map record_view (metadata_store self) ∧
    ∀ query k threshold,
      search encode faiss_search loaded query k threshold
      = search encode faiss_search self query k threshold.
Proof.
  intros Hlists Hjson.
  destruct (json_dump_lists _ Hlists Hjson) as (records & Hdump & Hview).
  unfold save. rewrite Hdump. simpl. split; [done|].
  set (dir := match path with None => persist_dir self | Some p => p end).
  assert (default (persist_dir self) path = dir) as -> by (by destruct path).
  unfold load.
  rewrite lookup_insert_ne by (apply not_eq_sym, path_join_files).
  rewrite !lookup_insert_eq. eexists. split; [done|]. simpl.
  split; [done|]. split; [done|].
  intros query k threshold. by apply search_ext.
Qed.

(** A loaded store that is not empty cannot be saved: its records hold
    arrays. *)
Lemma save_loaded_raises dir fs (loaded : DocumentStore F) path fs' :
  load dir fs = Done loaded → metadata_store loaded ≠ [] →
  (save loaded path fs').1 = Raise TypeError.
Proof.
  unfold load. intros Hload Hne.
  destruct (fs !! path_join dir "index.faiss") as [[ix| |]|]; try done.
  destruct (fs !! path_join dir "metadata.json") as [[|records|]|]; try done.
  injection Hload as <-. simpl in Hne.
  destruct records as [|item records]; [done|].
  unfold save. rewrite (json_dump_array _ (load_record item)); [done| |].
  - simpl. by left.
  - unfold embedding_is_list. simpl. tauto.
Qed.

End PersistFacts.

(** The store of the scenario holds lists and JSON values. *)
Lemma demo_store_records :
  Forall embedding_is_list (metadata_store demo_store) ∧
  Forall metadata_is_json (metadata_store demo_store).
Proof.
  unfold demo_store. split.
  - apply add_document_lists. constructor.
  - apply add_document_json; constructor.
Qed.

(** ** The order of exact scores *)

Lemma exact_flt_asymmetric : flt_asymmetric (F := Q).
Proof.
  intros a b. cbn [flt exact]. intros Hab.
  apply negb_true_iff, not_true_iff_false in Hab.
  apply negb_false_iff, Qle_bool_iff.
  rewrite Qle_bool_iff in Hab. apply Qnot_le_lt in Hab. by apply Qlt_le_weak.
Qed.

Lemma exact_flt_negatively_transitive : flt_negatively_transitive (F := Q).
Proof.
  intros a b c. cbn [flt exact]. intros Hab Hbc.
  apply negb_false_iff, Qle_bool_iff in Hab.
  apply negb_false_iff, Qle_bool_iff in Hbc.
  apply negb_false_iff, Qle_bool_iff. by eapply Qle_trans.
Qed.

(** ** More facts about the strings *)

Section MoreStringFacts.

Implicit Types (s t w : pystr) (ws : list pystr) (c : Z).

Lemma lstrip_length s : (length (lstrip s) ≤ length s)%nat.
Proof.
  destruct (lstrip_split s) as [ws [Hs _]].
  rewrite Hs at 2. rewrite length_app. lia.
Qed.

Lemma strip_length s : (length (strip s) ≤ length s)%nat.
Proof.
  unfold strip, rstrip. rewrite length_rev.
  pose proof (lstrip_length (rev (lstrip s))) as H1.
  rewrite length_rev in H1. pose proof (lstrip_length s). lia.
Qed.

Lemma slice_length s i j : 0 ≤ i → Z.of_nat (length (slice s i j)) ≤ Z.max 0 (j - i).
Proof.
  intros Hi. unfold slice. rewrite length_take. lia.
Qed.

Lemma slice_whole s : slice s 0 (len s) = s.
Proof.
  unfold slice, len. rewrite Z.sub_0_r, Nat2Z.id. simpl.
  by rewrite firstn_all.
Qed.

Lemma slice_elem s i j c : c ∈ slice s i j → c ∈ s.
Proof.
  unfold slice. intros Hc.
  apply list_elem_of_lookup in Hc as [k Hk].
  apply lookup_take_Some in Hk as [Hk _]. rewrite lookup_drop in Hk.
  by eapply list_elem_of_lookup_2.
Qed.

(** Splitting the joined words gives the words back. *)
Lemma split_word_then w t :
  word_ok w → split (w ++ 32 :: t) = w :: split t.
Proof.
  intros [Hne Hw]. induction w as [|a w IH]; [done|].
  apply Forall_cons in Hw as [Ha Hw].
  destruct w as [|b w].
  - simpl. by rewrite Ha.
  - specialize (IH ltac:(done) Hw).
    change (split ((a :: b :: w) ++ 32 :: t))
      with (if isspace a then split ((b :: w) ++ 32 :: t)
            else if isspace b then [a] :: split ((b :: w) ++ 32 :: t)
                 else match split ((b :: w) ++ 32 :: t) with
                      | w' :: ws => (a :: w') :: ws
                      | [] => [[a]]
                      end).
    rewrite Ha. apply Forall_cons in Hw as [Hb _]. rewrite Hb.
    by rewrite IH.
Qed.

Lemma split_word w : word_ok w → split w = [w].
Proof.
  intros [Hne Hw]. induction w as [|a w IH]; [done|].
  apply Forall_cons in Hw as [Ha Hw].
  destruct w as [|b w].
  - simpl. by rewrite Ha.
  - specialize (IH ltac:(done) Hw).
    change (split (a :: b :: w))
      with (if isspace a then split (b :: w)
            else if isspace b then [a] :: split (b :: w)
                 else match split (b :: w) with
                      | w' :: ws => (a :: w') :: ws
                      | [] => [[a]]
                      end).
    rewrite Ha. apply Forall_cons in Hw as [Hb _]. rewrite Hb.
    by rewrite IH.
Qed.

Lemma split_join ws : Forall word_ok ws → split (join [32] ws) = ws.
Proof.
  induction 1 as [|w ws Hw Hws IH]; [done|].
  destruct ws as [|w' ws'].
  - simpl. by apply split_word.
  - change (join [32] (w :: w' :: ws')) with (w ++ 32 :: join [32] (w' :: ws')).
    by rewrite split_word_then, IH.
Qed.

(** The characters of a cleaned text. *)
Lemma clean_text_chars raw :
  Forall (fun c => c = 32 ∨ kept_char c = true) (clean_text raw).
Proof.
  apply Forall_forall. intros c Hc.
  unfold clean_text, decode_ascii, encode_ascii_ignore in Hc.
  apply strip_elem in Hc.
  apply list_elem_of_fmap in Hc as (c0 & -> & Hc0).
  apply list_elem_of_filter in Hc0 as [Hascii Hc0].
  destruct (is_word c0 || isspace c0 || is_kept_punct c0) eqn:Hkeep; [|by left].
  apply join_elem in Hc0 as [->|(w & Hw & Hc0)]; [by left|].
  right. pose proof (split_words raw) as Hws.
  rewrite Forall_forall in Hws. destruct (Hws w Hw) as [_ Hns].
  rewrite Forall_forall in Hns. specialize (Hns c0 Hc0).
  unfold kept_char. rewrite Hns in Hkeep.
  replace (0 <=? c0) with true by lia. replace (c0 <? 128) with true by lia.
  simpl. by destruct (is_word c0), (is_kept_punct c0).
Qed.

End MoreStringFacts.

(** ** More facts about the chunker *)

Section MoreChunkerFacts.

Context {V : Type}.
Variable self : TextProcessor V.
Variable txt : pystr.

Lemma window_end_le_size st :
  0 ≤ st → 0 ≤ chunk_size self → window_end self txt st ≤ st + chunk_size self.
Proof.
  intros Hst Hsize. unfold window_end. pose proof (len_nonneg txt) as Hlen.
  set (e0 := Z.min (st + chunk_size self) (len txt)).
  assert (0 ≤ e0 ≤ st + chunk_size self) as He0 by (unfold e0; lia).
  destruct (e0 <? len txt) eqn:Hlt; [|lia].
  pose proof (rfind_lt txt 46 st e0 (proj1 He0)).
  pose proof (rfind_lt txt 33 st e0 (proj1 He0)).
  pose proof (rfind_lt txt 63 st e0 (proj1 He0)).
  destruct (_ <? Z.max _ _) eqn:Hse; lia.
Qed.

(** A text within one window: the window is the whole text. *)
Lemma window_end_whole :
  len txt ≤ chunk_size self → window_end self txt 0 = len txt.
Proof.
  intros Hsize. unfold window_end.
  replace (Z.min (0 + chunk_size self) (len txt)) with (len txt) by lia.
  by rewrite Z.ltb_irrefl.
Qed.

Lemma next_start_whole :
  len txt ≤ overlap self → next_start self txt (len txt) = len txt.
Proof.
  intros Hoverlap. unfold next_start.
  replace (overlap self <? len txt) with false by lia.
  by rewrite Z.eqb_refl, Z.ltb_irrefl.
Qed.

(** The chunks of the next state: those of the state, with the same
    dictionary, and the one of the window when it is accepted. *)
Lemma loop_body_chunk md h0 d0 st i c :
  loop_inv txt h0 d0 st →
  chunks (loop_body self txt md st) !! i = Some c →
  (chunks st !! i = Some c ∧
   hp (loop_body self txt md st) !! metadata c = hp st !! metadata c)
  ∨ (i = length (chunks st) ∧
     text c = strip (slice txt (start st) (window_end self txt (start st))) ∧
     text c ≠ [] ∧
     hp (loop_body self txt md st) !! metadata c
     = Some (chunk_meta (default ∅ (hp st !! md)) (start st)
               (window_end self txt (start st)) (Z.of_nat i))).
Proof.
  intros Hinv Hic.
  destruct (loop_body_shape self txt md st)
    as [_ [(_ & Hch & Hhp)|(Hne & Hch & Hhp)]]; rewrite Hch, Hhp in *.
  - by left.
  - apply lookup_app_Some in Hic as [Hic|[Hi Hic]].
    + left. split; [done|].
      destruct (inv_chunks _ _ _ _ Hinv i c Hic) as (Hm & _).
      apply lookup_lt_Some in Hic.
      pose proof (inv_length _ _ _ _ Hinv) as Hl.
      apply lookup_app_l. lia.
    + right.
      destruct (i - length (chunks st))%nat as [|k] eqn:Hk; [|by destruct k].
      injection Hic as <-. simpl.
      assert (i = length (chunks st)) as -> by lia.
      repeat split; try done.
      by rewrite list_lookup_middle.
Qed.

(** Every chunk text is a trimmed slice of the text, and is not empty. *)
Lemma iterate_texts md n (st : loop_state V) c :
  (∀ c0, c0 ∈ chunks st →
     ∃ s e, text c0 = strip (slice txt s e) ∧ text c0 ≠ []) →
  c ∈ chunks (iterate self txt n md st) →
  ∃ s e, text c = strip (slice txt s e) ∧ text c ≠ [].
Proof.
  revert st. induction n as [|n IH]; intros st Hst Hc; simpl in Hc; [by apply Hst|].
  apply (IH (loop_body self txt md st)); [|done].
  intros c0 Hc0.
  destruct (loop_body_shape self txt md st)
    as [_ [(_ & Hch & _)|(Hne & Hch & _)]]; rewrite Hch in Hc0.
  - by apply Hst.
  - apply elem_of_app in Hc0 as [Hc0|Hc0]; [by apply Hst|].
    apply list_elem_of_singleton in Hc0 as ->. simpl. eauto.
Qed.

(** The text of a chunk that [chunk_text] returns. *)
Lemma chunk_text_texts fuel metadata h cs h' c :
  chunk_text self txt fuel metadata h = (Done cs, h') → c ∈ cs →
  ∃ s e, text c = strip (slice txt s e) ∧ text c ≠ [].
Proof.
  intros Hrun Hc.
  assert (∀ md h0 cs0 h1,
            chunk_text self txt fuel (Some md) h0 = (Done cs0, h1) → c ∈ cs0 →
            ∃ s e, text c = strip (slice txt s e) ∧ text c ≠ []) as Hsome.
  { intros md h0 cs0 h1 Hrun0 Hc0.
    destruct (chunk_text_iterate self txt fuel md h0) as (n & _ & Hcs).
    rewrite Hrun0 in Hcs. destruct (Hcs cs0 eq_refl) as [-> _].
    apply (iterate_texts md n (loop_init h0)); [|done].
    intros c1 Hc1. by apply elem_of_nil in Hc1. }
  destruct metadata as [md|]; [by eapply Hsome|].
  rewrite chunk_text_None in Hrun. by eapply Hsome.
Qed.


End MoreChunkerFacts.


(** ** More facts about the embedding step *)

Section MoreEmbedFacts.

Context {F : Type}.

Implicit Types (cs : list (TextChunk (list F))) (embs : list (list F)).

Lemma chunk_meta_inj (d d' : dict) s e i s' e' i' :
  chunk_meta d s e i = chunk_meta d' s' e' i' → s = s' ∧ e = e' ∧ i = i'.
Proof.
  intros Heq.
  pose proof (f_equal (fun m : dict => m !! "chunk_start"%string) Heq) as Hs.
  pose proof (f_equal (fun m : dict => m !! "chunk_end"%string) Heq) as He.
  pose proof (f_equal (fun m : dict => m !! "chunk_id"%string) Heq) as Hi.
  unfold chunk_meta in Hs, He, Hi. simplify_map_eq. done.
Qed.

Lemma set_embeddings_text cs embs :
  map text (set_embeddings cs embs) = map text cs.
Proof.
  revert embs. induction cs as [|c cs IH]; intros [|e embs]; simpl; try done.
  by rewrite IH.
Qed.

Lemma set_embeddings_metadata cs embs :
  map metadata (set_embeddings cs embs) = map metadata cs.
Proof.
  revert embs. induction cs as [|c cs IH]; intros [|e embs]; simpl; try done.
  by rewrite IH.
Qed.

Lemma set_embeddings_all cs embs :
  length embs = length cs →
  map embedding (set_embeddings cs embs) = map Some embs.
Proof.
  revert embs. induction cs as [|c cs IH]; intros [|e embs]; simpl; try done.
  intros [= Hl]. by rewrite IH.
Qed.

End MoreEmbedFacts.

(** ** More facts about the document store *)

Section MoreStoreFacts.

Context {F : Type} `{FloatArith F}.
Variable encode : list pystr → option (list (list F)).
Variable faiss_search : list (list F) → list F → Z → option (list F * list Z).

Implicit Types (self : DocumentStore F) (h : heap) (cs : list (TextChunk (list F))).

Lemma asdict_fields h cs records embs :
  mapM (asdict h) cs = Some records →
  map embedding cs = map Some embs →
  map cd_embedding records = map AsList embs ∧
  map cd_text records = map text cs.
Proof.
  intros Hm. apply mapM_Some_1 in Hm. revert embs.
  induction Hm as [|c rec cs records Hrec _ IH]; intros embs Hemb.
  - by destruct embs.
  - destruct embs as [|e embs]; [done|]. simpl in Hemb.
    injection Hemb as He Hrest.
    unfold asdict in Hrec. rewrite He in Hrec. injection Hrec as <-.
    destruct (IH embs Hrest) as [IH1 IH2]. simpl. by rewrite IH1, IH2.
Qed.

(** What a call of [add_document] that returns chunks has added. *)
Lemma add_document_added fuel self doc metadata h cs :
  (add_document encode fuel self doc metadata h).1.1 = Done cs → cs ≠ [] →
  let s' := (add_document encode fuel self doc metadata h).1.2 in
  ∃ embs records,
    map embedding cs = map Some embs ∧
    Forall (fun v => Z.of_nat (length v) = dim (index self)) embs ∧
    map cd_embedding records = map AsList embs ∧
    map cd_text records = map text cs ∧
    persist_dir s' = persist_dir self ∧
    dimension s' = dimension self ∧
    dim (index s') = dim (index self) ∧
    vectors (index s') = vectors (index self) ++ embs ∧
    metadata_store s' = metadata_store self ++ records.
Proof.
  cbv zeta. unfold add_document.
  destruct (match metadata with None => dict_new h | Some l => (l, h) end) as [md h1].
  destruct (process_document _ fuel doc (Some md) h1) as [[cs0|e|] h2]; [|done|done].
  destruct cs0 as [|c cs0]; [by intros [= <-]|].
  destruct (np_array (map embedding (c :: cs0))) as [embs|e|] eqn:Hnp; [|done|done].
  destruct (index_add (index self) embs) as [ix'|] eqn:Hix; [|done].
  apply np_array_Done in Hnp.
  destruct (store_chunks_all_set h2 (metadata_store self) (c :: cs0) embs Hnp)
    as (records & Hm & Hs & Hl).
  rewrite Hs. simpl. intros [= <-] _.
  pose proof (all_set_Some (c :: cs0) embs Hnp) as Hemb.
  destruct (asdict_fields h2 (c :: cs0) records embs Hm Hemb) as [Hre Hrt].
  exists embs, records.
  split; [done|]. split.
  { unfold index_add in Hix. destruct (forallb _ embs) eqn:Hall; [|done].
    rewrite forallb_forall in Hall. apply Forall_forall. intros v Hv.
    apply list_elem_of_In, Hall in Hv. lia. }
  apply index_add_Some in Hix as [Hd Hv].
  repeat split; done.
Qed.

(** *** The stable sort and a filter commute *)

Lemma score_not_below_trans :
  flt_negatively_transitive →
  ∀ a b c : SearchResult F,
    score_not_below a b → score_not_below b c → score_not_below a c.
Proof. intros Hnt a b c. unfold score_not_below. apply Hnt. Qed.

Lemma sorted_head_bounds (y : SearchResult F) l z :
  flt_negatively_transitive →
  Sorted score_not_below (y :: l) → z ∈ l → score_not_below y z.
Proof.
  intros Hnt Hs. revert z.
  induction l as [|x l IH] in y, Hs |- *; intros z Hz; [by apply elem_of_nil in Hz|].
  apply Sorted_inv in Hs as [Hs Hhd]. apply HdRel_inv in Hhd.
  apply elem_of_cons in Hz as [->|Hz]; [done|].
  eapply score_not_below_trans; [done | exact Hhd |]. by apply IH.
Qed.

Lemma insert_by_score_filter (P : SearchResult F → Prop)
    `{∀ r, Decision (P r)} x l :
  flt_negatively_transitive →
  Sorted score_not_below l →
  filter P (insert_by_score x l)
  = if decide (P x) then insert_by_score x (filter P l) else filter P l.
Proof.
  intros Hnt. induction 1 as [|y l Hl IH Hy]; simpl.
  - rewrite filter_cons, filter_nil. by destruct (decide (P x)).
  - destruct (flt (score x) (score y)) eqn:Hxy.
    + rewrite !filter_cons, IH.
      destruct (decide (P x)), (decide (P y)); simpl; try done.
      by rewrite Hxy.
    + rewrite !filter_cons.
      destruct (decide (P x)) as [Hx|Hx]; [|done].
      destruct (decide (P y)) as [Hpy|Hpy]; simpl; [by rewrite Hxy|].
      destruct (filter P l) as [|z l'] eqn:Hf; [done|]. simpl.
      assert (z ∈ l) as Hz.
      { assert (z ∈ filter P l) as Hz by (rewrite Hf; left).
        by apply list_elem_of_filter in Hz as [_ Hz]. }
      pose proof (sorted_head_bounds y l z Hnt (Sorted_cons Hl Hy) Hz) as Hyz.
      by rewrite (Hnt _ _ _ Hxy Hyz).
Qed.

Lemma sort_by_score_filter (P : SearchResult F → Prop)
    `{∀ r, Decision (P r)} l :
  flt_asymmetric → flt_negatively_transitive →
  sort_by_score (filter P l) = filter P (sort_by_score l).
Proof.
  intros Hasym Hnt. induction l as [|x l IH]; [done|].
  simpl. rewrite insert_by_score_filter by (done || by apply sort_by_score_sorted).
  rewrite filter_cons. destruct (decide (P x)); simpl; by rewrite IH.
Qed.

End MoreStoreFacts.

(** ** More facts about [save] and [load] *)

(** Two paths of the files of a store agree only inside one directory. *)
Lemma list_ascii_app (a b : string) :
  String.list_ascii_of_string (a ++ b)
  = String.list_ascii_of_string a ++ String.list_ascii_of_string b.
Proof.
  induction a as [|c a IH]; simpl; [done|]. by rewrite IH.
Qed.

Lemma list_ascii_inj (a b : string) :
  String.list_ascii_of_string a = String.list_ascii_of_string b → a = b.
Proof.
  revert b. induction a as [|c a IH]; intros [|d b]; simpl; try done.
  intros [= -> Hab]. f_equal. by apply IH.
Qed.

Lemma path_join_dir (d d' name name' : string) :
  name ∈ ["index.faiss"; "metadata.json"]%string →
  name' ∈ ["index.faiss"; "metadata.json"]%string →
  path_join d name = path_join d' name' → d = d'.
Proof.
  intros Hn Hn' Heq. unfold path_join in Heq.
  apply (f_equal String.list_ascii_of_string) in Heq.
  rewrite !list_ascii_app in Heq.
  rewrite !elem_of_cons, elem_of_nil in Hn, Hn'.
  destruct Hn as [->|[->|[]]], Hn' as [->|[->|[]]].
  - apply app_inj_2 in Heq as [Hd _]; [by apply list_ascii_inj|done].
  - apply (f_equal last) in Heq. rewrite !last_app in Heq. done.
  - apply (f_equal last) in Heq. rewrite !last_app in Heq. done.
  - apply app_inj_2 in Heq as [Hd _]; [by apply list_ascii_inj|done].
Qed.

Section MorePersistFacts.

Context {F : Type} `{FloatArith F}.

Lemma json_dump_None (ms : list (chunk_dict F)) :
  ¬ (Forall embedding_is_list ms ∧ Forall metadata_is_json ms) →
  mapM json_dump_record ms = None.
Proof.
  intros Hnot. destruct (mapM json_dump_record ms) as [records|] eqn:Hm; [|done].
  exfalso. by eapply Hnot, json_dump_Some.
Qed.

Lemma load_record_array (records : list (json_record F)) item :
  item ∈ map load_record records → ¬ embedding_is_list item.
Proof.
  intros Hin. apply list_elem_of_In, in_map_iff in Hin as (rec & <- & _).
  unfold embedding_is_list. simpl. tauto.
Qed.

End MorePersistFacts.

(** ** Facts about the processor *)

Section ProcessorFacts.

Context {F : Type} `{FloatArith F}.
Variable encode : list pystr → option (list (list F)).

(** A store keeps its array embeddings through [add_document]. *)
Lemma add_document_keeps_arrays fuel (self : DocumentStore F) doc metadata h :
  ¬ Forall embedding_is_list (metadata_store self) →
  ¬ Forall embedding_is_list
      (metadata_store (add_document encode fuel self doc metadata h).1.2).
Proof.
  intros Hnot Hall. apply Hnot.
  pose proof (add_document_cases encode fuel self doc metadata h) as Hcases.
  cbv zeta in Hcases.
  destruct (add_document encode fuel self doc metadata h) as [[out s'] h'].
  simpl in *. destruct out as [cs| |]; try by subst.
  destruct Hcases as [[_ ->]|[_ (embs & records & _ & _ & _ & _ & _ & _ & _ & Hms)]];
    [done|].
  rewrite Hms in Hall. by apply Forall_app in Hall as [? _].
Qed.

(** The store grows by the chunks [add_document] returns, and keeps its
    directory. *)
Lemma add_document_len fuel (self : DocumentStore F) doc metadata h cs :
  (add_document encode fuel self doc metadata h).1.1 = Done cs →
  store_len (add_document encode fuel self doc metadata h).1.2
  = store_len self + Z.of_nat (length cs)
  ∧ persist_dir (add_document encode fuel self doc metadata h).1.2 = persist_dir self.
Proof.
  intros Hdone.
  pose proof (add_document_cases encode fuel self doc metadata h) as Hcases.
  cbv zeta in Hcases. rewrite Hdone in Hcases.
  destruct Hcases as [[-> ->]|[_ (embs & records & _ & _ & Hl & Hp & _ & _ & _ & Hms)]].
  - simpl. split; [lia|done].
  - split; [|done]. unfold store_len. rewrite Hms, length_app, Hl. lia.
Qed.

(** A text longer than the overlap after cleaning: [add_document] is still
    running whatever the fuel, and the store is as it was. *)
Lemma add_document_never_returns fuel (self : DocumentStore F) doc metadata h :
  200 < len (clean_text doc) →
  (add_document encode fuel self doc metadata h).1.1 = Running
  ∧ (add_document encode fuel self doc metadata h).1.2 = self.
Proof.
  intros Hlong.
  destruct (add_document_chunking encode fuel self doc metadata h) as [_ Hc].
  pose proof (add_document_cases encode fuel self doc metadata h) as Hcases.
  cbv zeta in Hcases.
  rewrite (chunk_text_never_returns (text_processor encode) (clean_text doc)) in Hc
    by (simpl; lia).
  rewrite Hc in Hcases. by split.
Qed.

End ProcessorFacts.

(** Membership in the list of the extensions both tables accept. *)
Lemma four_extensions (ext : string) :
  ext ∈ [".pdf"; ".docx"; ".doc"; ".eml"]%string
  ↔ ext = ".pdf"%string ∨ ext = ".docx"%string ∨ ext = ".doc"%string
    ∨ ext = ".eml"%string.
Proof.
  rewrite !elem_of_cons, elem_of_nil. tauto.
Qed.

Section LoaderFacts.

Variable path_exists : string → bool.
Variable suffix_lower : string → string.

(** An allowed extension with a loader is one of four. *)
Lemma allowed_loader_cases file_path :
  str_in (suffix_lower file_path) get_allowed_extensions = true →
  (∃ loader, get_document_loader path_exists suffix_lower file_path = Done loader) →
  suffix_lower file_path ∈ [".pdf"; ".docx"; ".doc"; ".eml"]%string.
Proof.
  unfold get_document_loader.
  destruct (path_exists file_path); simpl negb; cbv iota; [|by intros _ [? ?]].
  generalize (suffix_lower file_path). intros ext.
  unfold str_in, get_allowed_extensions. simpl existsb.
  rewrite !orb_false_r.
  rewrite four_extensions.
  destruct (String.eqb_spec ext ".pdf") as [->|Hpdf]; [intros; tauto|].
  destruct (String.eqb_spec ext ".docx") as [->|Hdocx]; [intros; tauto|].
  destruct (String.eqb_spec ext ".doc") as [->|Hdoc]; [intros; tauto|].
  destruct (String.eqb_spec ext ".eml") as [->|Heml]; [intros; tauto|].
  destruct (String.eqb_spec ext ".txt") as [->|Htxt]; [by intros _ [? ?]|].
  done.
Qed.

End LoaderFacts.

(** [<=] on the rationals is transitive. *)
Lemma exact_fle_transitive (a b c : Q) :
  fle a b = true → fle b c = true → fle a c = true.
Proof.
  cbn [fle exact]. rewrite !Qle_bool_iff. apply Qle_trans.
Qed.

(** The record of [reloaded_store] holds an array. *)
Lemma reloaded_store_array :
  ¬ Forall embedding_is_list (metadata_store reloaded_store).
Proof.
  unfold reloaded_store. cbn [metadata_store].
  assert (∃ item rest, metadata_store demo_store = item :: rest) as (item & rest & ->)
    by (eexists _, _; vm_compute; reflexivity).
  intros Hall. apply Forall_inv in Hall. revert Hall.
  unfold embedding_is_list. cbn [cd_embedding]. by destruct (cd_embedding item).
Qed.


(** * The claims about the chunker *)

Section ChunkerClaims.

Context {V : Type}.
Variable encode : list pystr → option (list V).

(** C8, as amended: [clean_text] is a total function, it maps the empty
    string to the empty string, its result has no whitespace at either end
    and no whitespace character other than the space; the result has no run
    of two whitespace characters when every character of the input is
    whitespace or a kept character (an ASCII letter, digit, underscore or one
    of the punctuation marks of the pattern). *)
Theorem clean_text_total_and_trimmed (raw : pystr) :
  (∃ out, clean_text raw = out) ∧
  clean_text [] = [] ∧
  (∀ c t, clean_text raw = c :: t → isspace c = false) ∧
  (∀ c, last (clean_text raw) = Some c → isspace c = false) ∧
  (∀ c, c ∈ clean_text raw → isspace c = true → c = 32) ∧
  (Forall (fun c => isspace c = true ∨ kept_char c = true) raw →
   has_space_run (clean_text raw) = false).
Proof.
  split; [by eexists|]. split; [done|].
  split; [intros c t; apply strip_head|].
  split; [intros c; apply strip_last|].
  split; [intros c; apply clean_text_space|].
  intros Hraw. rewrite clean_text_kept by done.
  apply join_no_space_run, split_words.
Qed.

(** C1, at a text of 201 characters: whatever the fuel, the metadata and the
    heap, [chunk_text] is still running. *)
Theorem chunk_text_spins_on_long_word (fuel : nat) (metadata : option loc) (h : heap) :
  (chunk_text (TextProcessor_init encode) long_word fuel metadata h).1 = Running.
Proof.
  apply chunk_text_never_returns; simpl; [lia|].
  split; [lia|]. by vm_compute.
Qed.


End ChunkerClaims.

(** C8: the result of [clean_text] on ["a @ b"] has a run of three
    spaces. *)
Lemma clean_text_keeps_space_run :
  clean_text (py "a @ b") = py "a   b" ∧
  has_space_run (clean_text (py "a @ b")) = true.
Proof. split; reflexivity. Qed.

(** C8, witness: a text of words, commas and whitespace runs. *)
Lemma clean_text_total_and_trimmed_witness :
  Forall (fun c => isspace c = true ∨ kept_char c = true) (py " so  far,  so good ") ∧
  clean_text (py " so  far,  so good ") = py "so far, so good" ∧
  has_space_run (clean_text (py " so  far,  so good ")) = false.
Proof.
  assert (Forall (fun c => isspace c = true ∨ kept_char c = true)
            (py " so  far,  so good ")) as Hkept
    by (apply (bool_decide_unpack _); vm_compute; exact I).
  split; [exact Hkept|]. split; [reflexivity|].
  by apply (clean_text_total_and_trimmed (py " so  far,  so good ")).
Defined.


(** * The claims about the document store *)

Section StoreClaims.

Context {F : Type} `{FloatArith F}.
Variable encode : list pystr → option (list (list F)).
Variable faiss_search : list (list F) → list F → Z → option (list F * list Z).

(** C2: [add_document] is all-or-nothing.  When the embedding call raises,
    the call raises and the store is as before; when the chunk list is empty,
    the call returns the empty list and the store is as before; a call that
    raises or does not return leaves the store as before; a call that returns
    chunks returns them with their embeddings set, and has appended exactly
    these embeddings to the index and one record for each chunk to the
    metadata store. *)
Theorem add_document_all_or_nothing
    (fuel : nat) (self : DocumentStore F) (doc : pystr)
    (metadata : option loc) (h : heap) :
  let r := add_document encode fuel self doc metadata h in
  let chunked := chunk_text (text_processor encode) (clean_text doc) fuel
                   (Some (caller_dict metadata h).1) (caller_dict metadata h).2 in
  (∀ cs, chunked.1 = Done cs → cs ≠ [] → encode (map text cs) = None →
         r.1.1 = Raise ProviderError ∧ r.1.2 = self) ∧
  (chunked.1 = Done [] → r.1.1 = Done [] ∧ r.1.2 = self) ∧
  (∀ e, r.1.1 = Raise e → r.1.2 = self) ∧
  (r.1.1 = Running → r.1.2 = self) ∧
  (∀ cs, r.1.1 = Done cs → cs ≠ [] →
     ∃ embs records,
       map embedding cs = map Some embs ∧
       mapM (asdict r.2) cs = Some records ∧
       vectors (index r.1.2) = vectors (index self) ++ embs ∧
       metadata_store r.1.2 = metadata_store self ++ records).
Proof.
  intros r chunked.
  pose proof (add_document_cases encode fuel self doc metadata h) as Hcases.
  pose proof (add_document_chunking encode fuel self doc metadata h) as [_ Hchunk].
  cbv zeta in Hcases, Hchunk. fold r in Hcases, Hchunk. fold chunked in Hchunk.
  split; [|split; [|split; [|split]]].
  - intros cs Hc Hne Henc. rewrite Hc in Hchunk.
    destruct cs as [|c cs']; [done|].
    rewrite (Hchunk Henc) in Hcases. by rewrite (Hchunk Henc).
  - intros Hc. rewrite Hc in Hchunk. rewrite Hchunk in Hcases.
    split; [done|]. by destruct Hcases as [[_ ?]|[? _]].
  - intros e He. by rewrite He in Hcases.
  - intros Hr. by rewrite Hr in Hcases.
  - intros cs Hcs Hne. rewrite Hcs in Hcases.
    destruct Hcases as [[? _]|[_ (embs & records & ? & ? & _ & _ & _ & _ & ? & ?)]];
      [done|].
    by exists embs, records.
Qed.

(** C3: after any finite sequence of [add_document] and [clear] calls on a
    freshly constructed store, the index holds as many vectors as the
    metadata store holds records. *)
Theorem index_and_metadata_aligned
    (calls : list (call)) (dir : string) (h : heap) :
  let st := do_calls encode calls (DocumentStore_init dir, h) in
  length (vectors (index st.1)) = length (metadata_store st.1).
Proof.
  cbv zeta. unfold do_calls.
  assert (length (vectors (index (DocumentStore_init (F:=F) dir)))
          = length (metadata_store (DocumentStore_init (F:=F) dir))) as Hinit by done.
  revert Hinit. generalize (DocumentStore_init (F:=F) dir) as s. revert h.
  induction calls as [|c calls IH]; intros h s Hs; simpl; [done|].
  destruct c as [fuel doc metadata|]; simpl.
  - pose proof (add_document_cases encode fuel s doc metadata h) as Hcases.
    cbv zeta in Hcases.
    destruct (add_document encode fuel s doc metadata h) as [[out s'] h'].
    simpl in *. apply IH.
    destruct out as [cs| |]; try by subst.
    destruct Hcases as [[_ ->]|[_ (embs & records & He & _ & Hl & _ & _ & _ & -> & ->)]];
      [done|].
    rewrite !length_app, Hs, Hl.
    apply (f_equal length) in He. rewrite !length_map in He. lia.
  - by apply IH.
Qed.


End StoreClaims.

Section ScenarioClaims.

Context {F : Type} `{FloatArith F}.
Variable encode : list pystr → option (list (list F)).

(** C9, as amended: with the default [chunk_size] 1000 and [overlap] 200,
    [add_document] on ["Sentence one. Sentence two. Sentence three."] with
    the metadata [{"title": "T"}] yields exactly one chunk; the chunk spans
    [0, 43) of the cleaned text, which has 43 characters, and its metadata is
    [{title: "T", chunk_start: 0, chunk_end: 43, chunk_id: 0}]. *)
Theorem add_document_three_sentences
    (fuel : nat) (dir : string) (md : loc) (h : heap) (v : list F) :
  h !! md = Some title_T →
  encode [three_sentences] = Some [v] →
  length v = 384%nat →
  add_document encode (S fuel) (DocumentStore_init dir) three_sentences (Some md) h
  = (Done [{| text := three_sentences; metadata := length h; embedding := Some v |}],
     {| persist_dir := dir; dimension := 384;
        index := {| dim := 384; vectors := [v] |};
        metadata_store :=
          [{| cd_text := three_sentences;
              cd_metadata := {[ "title"%string := PStr (py "T");
                                "chunk_start"%string := PInt 0;
                                "chunk_end"%string := PInt 43;
                                "chunk_id"%string := PInt 0 ]};
              cd_embedding := AsList v |}] |},
     h ++ [{[ "title"%string := PStr (py "T");
              "chunk_start"%string := PInt 0;
              "chunk_end"%string := PInt 43;
              "chunk_id"%string := PInt 0 ]}]).
Proof.
  intros Hmd Henc Hlen.
  assert (chunk_meta title_T 0 43 0
          = {[ "title"%string := PStr (py "T"); "chunk_start"%string := PInt 0;
               "chunk_end"%string := PInt 43; "chunk_id"%string := PInt 0 ]}) as <-
    by (vm_compute; reflexivity).
  unfold add_document, process_document.
  assert (clean_text three_sentences = three_sentences) as -> by (by vm_compute).
  rewrite (chunk_text_one_window (text_processor encode) three_sentences
             fuel md h title_T 43 Hmd);
    [| by vm_compute | by vm_compute | by vm_compute | by vm_compute].
  assert (strip (slice three_sentences 0 43) = three_sentences) as ->
    by (by vm_compute).
  unfold embed_chunks, text_processor. cbn [model TextProcessor_init map text].
  rewrite Henc. cbn [set_embeddings text metadata embedding map].
  unfold np_array. cbn [all_set forallb]. unfold index_add.
  cbn [forallb DocumentStore_init index dim vectors]. rewrite Hlen.
  cbn [Z.of_nat Pos.of_succ_nat Z.eqb Pos.eqb andb app metadata_store persist_dir dimension].
  unfold store_chunks, asdict. cbn [embedding metadata text].
  rewrite list_lookup_middle by done. done.
Qed.

(** C10: [chunk_text] never changes the caller's dictionary.  After any
    number of iterations of its loop, the dictionary the caller passed has the
    content it had, and each accepted chunk has a dictionary of its own,
    allocated by the call, holding the caller's entries and the three chunk
    keys; and after any call of [add_document] the dictionary the caller
    passed has the content it had. *)
Theorem metadata_argument_unchanged
    (fuel : nat) (self : DocumentStore F) (doc : pystr)
    (md : loc) (h : heap) (d0 : dict) :
  h !! md = Some d0 →
  (add_document encode fuel self doc (Some md) h).2 !! md = Some d0 ∧
  (∀ txt : pystr, ∀ n : nat,
     let st := iterate (text_processor encode) txt n md (loop_init h) in
     hp st !! md = Some d0 ∧
     ∀ c, c ∈ chunks st →
       metadata c ≠ md ∧ h !! metadata c = None ∧
       ∃ s e i, hp st !! metadata c = Some (chunk_meta d0 s e i)).
Proof.
  intros Hmd. split; [by apply add_document_frame|].
  intros txt n st.
  assert (loop_inv txt h d0 st) as Hinv.
  { apply loop_inv_iterate; simpl; try done; try lia. apply loop_inv_init. }
  split; [by apply (inv_frame _ _ _ _ Hinv)|].
  intros c Hc. apply list_elem_of_lookup in Hc as [i Hic].
  destruct (inv_chunks _ _ _ _ Hinv i c Hic) as (Hm & _ & s & e & Hd & _).
  apply lookup_lt_Some in Hmd.
  split; [lia|]. split; [apply lookup_ge_None; lia|].
  by exists s, e, (Z.of_nat i).
Qed.

End ScenarioClaims.

(** C7, as amended: in exact arithmetic the score [1/(1+d)] lies in (0, 1]
    for every distance [d >= 0], and is strictly decreasing: for
    [0 <= d1 < d2], [score d2 < score d1]; with an arithmetic that rounds
    each operation by a monotone rounding leaving 0 and 1 as they are, the
    score lies in [0, 1] and does not increase with the distance. *)
Theorem score_exact_decreasing :
  (∀ d : Q, (0 <= d)%Q →
     (0 < score_of_distance d)%Q ∧ (score_of_distance d <= 1)%Q) ∧
  (∀ d1 d2 : Q, (0 <= d1)%Q → (d1 < d2)%Q →
     (score_of_distance d2 < score_of_distance d1)%Q ∧
     flt (score_of_distance d2) (score_of_distance d1) = true) ∧
  (∀ rnd : Q → Q, monotone_rounding rnd →
     ∀ d1 d2 : Q, (0 <= d1)%Q → (d1 <= d2)%Q →
       (score_of_distance (H := rounded rnd) d2
        <= score_of_distance (H := rounded rnd) d1)%Q ∧
       (0 <= score_of_distance (H := rounded rnd) d1)%Q ∧
       (score_of_distance (H := rounded rnd) d1 <= 1)%Q).
Proof.
  assert (∀ d : Q, score_of_distance d = (1 / (1 + d))%Q) as Hscore by done.
  assert (∀ a b : Q, (0 < a)%Q → (a <= b)%Q → (1 / b <= 1 / a)%Q) as Hinv.
  { intros a b Ha Hab. unfold Qdiv. rewrite !Qmult_1_l.
    destruct (Qle_lt_or_eq _ _ Hab) as [Hlt|Heq].
    - apply Qlt_le_weak. apply -> Qinv_lt_contravar; lra.
    - rewrite Heq. apply Qle_refl. }
  split; [|split].
  - intros d Hd. rewrite Hscore. split.
    + apply Qlt_shift_div_l; lra.
    + apply Qle_shift_div_r; lra.
  - intros d1 d2 Hd1 Hlt. rewrite !Hscore.
    assert (1 / (1 + d2) < 1 / (1 + d1))%Q as Hdec.
    { unfold Qdiv. rewrite !Qmult_1_l.
      apply -> Qinv_lt_contravar; lra. }
    split; [done|].
    cbn [flt exact]. apply negb_true_iff.
    destruct (Qle_bool (1 / (1 + d1)) (1 / (1 + d2))) eqn:Hle; [|done].
    apply Qle_bool_iff in Hle. lra.
  - intros rnd (Hmono & H0 & H1) d1 d2 Hd1 Hle.
    assert (∀ d : Q, score_of_distance (H := rounded rnd) d
                     = rnd (1 / rnd (1 + d))%Q) as Hr by done.
    rewrite !Hr.
    assert (0 <= rnd 0)%Q as H0le by (apply Qle_lteq; right; symmetry; exact H0).
    assert (1 <= rnd 1)%Q as H1le by (apply Qle_lteq; right; symmetry; exact H1).
    assert (rnd 1 <= 1)%Q as H1ge by (apply Qle_lteq; right; exact H1).
    assert (1 <= rnd (1 + d1))%Q as Ha.
    { apply (Qle_trans _ (rnd 1%Q)); [done|]. apply Hmono. lra. }
    assert (rnd (1 + d1) <= rnd (1 + d2))%Q as Hab by (apply Hmono; lra).
    split; [|split].
    + apply Hmono, Hinv; [lra | done].
    + apply (Qle_trans _ (rnd 0%Q)); [done|]. apply Hmono.
      apply Qle_shift_div_l; lra.
    + apply (Qle_trans _ (rnd 1%Q)); [|done]. apply Hmono.
      apply Qle_shift_div_r; lra.
Qed.

(** C7: in binary64 the distances [0] and [2^-70] are different and get the
    same score, [1.0]. *)
Lemma score_binary64_tie :
  fle 0%float 0%float = true ∧
  flt 0%float 0x1p-70%float = true ∧
  flt (score_of_distance 0x1p-70%float) (score_of_distance 0%float) = false ∧
  PrimFloat.eqb (score_of_distance 0x1p-70%float) 1%float = true ∧
  PrimFloat.eqb (score_of_distance 0%float) 1%float = true.
Proof. repeat split; by vm_compute. Qed.

(** C7, witness: the distances 0 and 1, with the rounding down to an
    integer for the rounded arithmetic. *)
Lemma score_exact_decreasing_witness :
  (0 <= 0)%Q ∧ (0 < 1)%Q ∧ monotone_rounding round_down ∧
  (score_of_distance 1%Q < score_of_distance 0%Q)%Q ∧
  (score_of_distance (H := rounded round_down) 1%Q
   <= score_of_distance (H := rounded round_down) 0%Q)%Q.
Proof.
  assert (monotone_rounding round_down) as Hrnd.
  { split; [|split; reflexivity].
    intros x y Hxy. unfold round_down. rewrite <- Zle_Qle.
    by apply Qfloor_resp_le. }
  split; [apply Qle_refl|]. split; [reflexivity|]. split; [exact Hrnd|].
  split.
  - apply (proj1 (proj2 score_exact_decreasing) 0%Q 1%Q);
      [apply Qle_refl | reflexivity].
  - apply (proj2 (proj2 score_exact_decreasing) round_down Hrnd 0%Q 1%Q);
      [apply Qle_refl | by vm_compute].
Defined.

(** C5, at a store that was loaded: [demo_store] is saved and loaded back
    with the same answers to every search, but the loaded store, which is not
    empty, cannot be saved again: [save] raises [TypeError] whatever the
    directory. *)
Theorem save_of_loaded_store_raises :
  (save demo_store None ∅).1 = Done tt ∧
  ∃ loaded,
    load "data/document_store" (save demo_store None ∅).2 = Done loaded ∧
    metadata_store loaded ≠ [] ∧
    (∀ query k threshold,
       search demo_encode demo_search loaded query k threshold
       = search demo_encode demo_search demo_store query k threshold) ∧
    (∀ path fs, (save loaded path fs).1 = Raise TypeError).
Proof.
  destruct demo_store_records as [Hlists Hjson].
  destruct (save_load_roundtrip demo_encode demo_search demo_store None ∅ Hlists Hjson)
    as (Hsave & loaded & Hload & _ & Hview & Hsearch).
  split; [done|]. exists loaded.
  assert (default (persist_dir demo_store) None = "data/document_store"%string)
    as Hdir by (vm_compute; reflexivity).
  rewrite Hdir in Hload.
  assert (metadata_store loaded ≠ []) as Hne.
  { intros Hnil. rewrite Hnil in Hview.
    assert (length (map record_view (metadata_store demo_store)) = 1%nat) as Hl
      by (vm_compute; reflexivity).
    by rewrite <- Hview in Hl. }
  split; [exact Hload|]. split; [exact Hne|]. split; [exact Hsearch|].
  intros path fs. exact (save_loaded_raises _ _ loaded path fs Hload Hne).
Qed.

(** C9: the cleaned text has 43 characters, and the one chunk of the
    scenario holds [chunk_end: 43], not 44. *)
Lemma scenario_chunk_ends_at_43 :
  let r := add_document demo_encode 1 (DocumentStore_init "data/document_store")
             three_sentences (Some 0%nat) [title_T] in
  len (clean_text three_sentences) = 43 ∧
  ∃ c, r.1.1 = Done [c] ∧
       chunk_span r.2 c = Some (0, 43) ∧
       r.2 !! metadata c
       = Some ({[ "title"%string := PStr (py "T"); "chunk_start"%string := PInt 0;
                  "chunk_end"%string := PInt 43; "chunk_id"%string := PInt 0 ]} : dict) ∧
       r.2 !! metadata c
       ≠ Some ({[ "title"%string := PStr (py "T"); "chunk_start"%string := PInt 0;
                  "chunk_end"%string := PInt 44; "chunk_id"%string := PInt 0 ]} : dict).
Proof.
  intros r. split; [vm_compute; reflexivity|].
  exists {| text := three_sentences; metadata := 1%nat;
            embedding := Some (repeat (inject_Z 43) 384) |}.
  split; [vm_compute; reflexivity|]. split; [vm_compute; reflexivity|].
  assert (r.2 !! 1%nat
          = Some ({[ "title"%string := PStr (py "T"); "chunk_start"%string := PInt 0;
                     "chunk_end"%string := PInt 43; "chunk_id"%string := PInt 0 ]} : dict))
    as Hd by (vm_compute; reflexivity).
  cbn [metadata]. split; [done|].
  rewrite Hd. intros Heq.
  apply (f_equal (fun o : option dict => o ≫= (fun d => d !! "chunk_end"%string))) in Heq.
  vm_compute in Heq. discriminate Heq.
Qed.

(** C9, witness: the scenario with the encoder [demo_encode]. *)
Lemma add_document_three_sentences_witness :
  (add_document demo_encode 1 (DocumentStore_init "data/document_store")
     three_sentences (Some 0%nat) [title_T]).2
  = [title_T;
     {[ "title"%string := PStr (py "T"); "chunk_start"%string := PInt 0;
        "chunk_end"%string := PInt 43; "chunk_id"%string := PInt 0 ]}].
Proof.
  rewrite (add_document_three_sentences demo_encode 0 "data/document_store" 0%nat
             [title_T] (repeat (inject_Z 43) 384));
    [reflexivity | reflexivity | by vm_compute | reflexivity].
Defined.

(** C2, witness: the embedding call raises on the one chunk of the
    scenario. *)
Lemma add_document_all_or_nothing_witness :
  let r := add_document failing_encode 1 (DocumentStore_init "data/document_store")
             three_sentences None [] in
  r.1.1 = Raise ProviderError ∧ r.1.2 = DocumentStore_init "data/document_store".
Proof.
  apply (proj1 (add_document_all_or_nothing failing_encode 1
                  (DocumentStore_init "data/document_store") three_sentences None [])
           [{| text := three_sentences; metadata := 1%nat; embedding := None |}]);
    [by vm_compute | done | reflexivity].
Defined.


(** C10, witness: the scenario, with the caller's dictionary at address 0. *)
Lemma metadata_argument_unchanged_witness :
  (add_document demo_encode 1 (DocumentStore_init "data/document_store")
     three_sentences (Some 0%nat) [title_T]).2 !! 0%nat = Some title_T.
Proof.
  apply (proj1 (metadata_argument_unchanged demo_encode 1
                  (DocumentStore_init "data/document_store") three_sentences
                  0%nat [title_T] title_T eq_refl)).
Defined.

(** * Further properties of the text processor *)

Section TextProcessorProperties.

Context {V : Type}.
Variable encode : list pystr → option (list V).

(** X1: with the default window of 1000 characters and overlap of 200,
    [chunk_text] returns exactly on the texts of at most 200 characters. *)
Theorem chunk_text_returns_iff_short
    (txt : pystr) (metadata : option loc) (h : heap) :
  (∃ fuel cs, (chunk_text (TextProcessor_init encode) txt fuel metadata h).1 = Done cs)
  ↔ len txt ≤ 200.
Proof.
  split.
  - intros (fuel & cs & Hdone).
    destruct (decide (len txt ≤ 200)) as [|Hlong]; [done|]. exfalso.
    rewrite (chunk_text_never_returns (TextProcessor_init encode) txt fuel metadata h)
      in Hdone; [done | simpl; lia | simpl; lia].
  - intros Hshort.
    destruct (chunk_text_returns_short (TextProcessor_init encode) txt 0 metadata h)
      as (cs & Hcs & _); [simpl; lia | simpl; lia |].
    by exists 1%nat, cs.
Qed.

(** X2: on a text of at most 200 characters, [chunk_text] returns no chunk
    when the text is empty or whitespace only, and leaves the heap as it was;
    otherwise it returns one chunk, whose text is the trimmed text and whose
    dictionary, a new object, holds the caller's entries with
    [chunk_start = 0], [chunk_end = len text] and [chunk_id = 0]. *)
Theorem chunk_text_short_text
    (txt : pystr) (md : loc) (h : heap) (d0 : dict) (fuel : nat) :
  h !! md = Some d0 → len txt ≤ 200 →
  chunk_text (TextProcessor_init encode) txt (S fuel) (Some md) h
  = match strip txt with
    | [] => (Done [], h)
    | _ :: _ =>
        (Done [{| text := strip txt; metadata := length h; embedding := None |}],
         h ++ [chunk_meta d0 0 (len txt) 0])
    end.
Proof.
  intros Hmd Hshort.
  set (tp := TextProcessor_init encode).
  assert (window_end tp txt 0 = len txt) as He
    by (apply window_end_whole; simpl; lia).
  assert (next_start tp txt (len txt) = len txt) as Hn
    by (apply next_start_whole; simpl; lia).
  destruct (strip txt) as [|c0 t0] eqn:Hstrip.
  - rewrite chunk_text_Some. simpl.
    destruct (0 <? len txt) eqn:Hlen; [|done].
    destruct (loop_body_shape tp txt md (loop_init h))
      as [Hst [(_ & Hch & Hhp)|(Hne & _)]].
    + simpl in Hst, Hch, Hhp. rewrite He, Hn in Hst.
      assert (while_loop tp txt fuel md (loop_body tp txt md (loop_init h))
              = (true, loop_body tp txt md (loop_init h))) as ->.
      { destruct fuel; simpl; rewrite Hst; by rewrite Z.ltb_irrefl. }
      simpl. by rewrite Hch, Hhp.
    + simpl in Hne. rewrite He, slice_whole in Hne. done.
  - assert (0 < len txt) as Hlen.
    { unfold len. destruct txt; [done | simpl; lia]. }
    rewrite (chunk_text_one_window tp txt fuel md h d0 (len txt) Hmd Hlen He).
    + by rewrite slice_whole, Hstrip.
    + by rewrite slice_whole, Hstrip.
    + lia.
Qed.

(** X3: after any number of iterations of the loop of [chunk_text], the
    chunk at position [i] of the list has [chunk_id = i], a range
    [chunk_start, chunk_end) of at most 1000 characters within the text, and
    as text the trimmed slice of that range, which is not empty, has no
    whitespace at either end, and is no longer than the range; its embedding
    is unset. *)
Theorem chunks_match_their_ranges
    (txt : pystr) (md : loc) (h : heap) (d0 : dict) (n : nat) :
  h !! md = Some d0 →
  let st := iterate (TextProcessor_init encode) txt n md (loop_init h) in
  ∀ i c, chunks st !! i = Some c →
    ∃ s e,
      chunk_span (hp st) c = Some (s, e) ∧
      meta_int (hp st) c "chunk_id" = Some (Z.of_nat i) ∧
      0 ≤ s < e ∧ e ≤ len txt ∧ e - s ≤ 1000 ∧
      text c = strip (slice txt s e) ∧ text c ≠ [] ∧
      len (text c) ≤ e - s ∧
      (∀ a t, text c = a :: t → isspace a = false) ∧
      (∀ a, last (text c) = Some a → isspace a = false) ∧
      embedding c = None.
Proof.
  intros Hmd. cbv zeta.
  set (tp := TextProcessor_init encode).
  set (J := fun st : loop_state V =>
    loop_inv txt h d0 st ∧
    ∀ i c s e, chunks st !! i = Some c →
      hp st !! metadata c = Some (chunk_meta d0 s e (Z.of_nat i)) → e - s ≤ 1000).
  assert (∀ m st, J st → J (iterate tp txt m md st)) as Hiter.
  { induction m as [|m IH]; intros st HJ; simpl; [done|]. apply IH.
    destruct HJ as [Hinv Hsize]. split.
    - apply loop_inv_body; simpl; try done; lia.
    - intros i c s e Hic Hd.
      destruct (loop_body_chunk tp txt md h d0 st i c Hinv Hic)
        as [[Hold Hsame]|(_ & _ & _ & Hnew)].
      + rewrite Hsame in Hd. by eapply Hsize.
      + rewrite Hnew in Hd. injection Hd as Hd.
        apply chunk_meta_inj in Hd as (<- & <- & _).
        pose proof (window_end_le_size tp txt (start st)
                      (inv_start _ _ _ _ Hinv) ltac:(simpl; lia)) as Hle.
        simpl in Hle. lia. }
  assert (J (loop_init h)) as Hinit.
  { split; [apply loop_inv_init|]. intros i c s e Hic. done. }
  destruct (Hiter n _ Hinit) as [Hinv Hsize].
  intros i c Hic.
  destruct (inv_chunks _ _ _ _ Hinv i c Hic)
    as (Hm & Hemb & s & e & Hd & Hse & Hle & Ht & Hne).
  exists s, e.
  assert (chunk_span (hp (iterate tp txt n md (loop_init h))) c = Some (s, e)) as Hspan.
  { unfold chunk_span, meta_int. rewrite Hd. unfold chunk_meta. by simplify_map_eq. }
  assert (meta_int (hp (iterate tp txt n md (loop_init h))) c "chunk_id"
          = Some (Z.of_nat i)) as Hid.
  { unfold meta_int. rewrite Hd. unfold chunk_meta. by simplify_map_eq. }
  split; [done|]. split; [done|]. split; [done|]. split; [done|].
  split; [by eapply Hsize|]. split; [done|]. split; [done|].
  split.
  { rewrite Ht. unfold len.
    pose proof (strip_length (slice txt s e)).
    pose proof (slice_length txt s e ltac:(lia)). lia. }
  split; [intros a t; rewrite Ht; apply strip_head|].
  split; [intros a; rewrite Ht; apply strip_last|].
  done.
Qed.

End TextProcessorProperties.

(** X4: a cleaned text holds only spaces and kept characters: ASCII letters,
    digits, the underscore and the punctuation [. , ; : ! ? ( ) [ ] -]. *)
Theorem clean_text_alphabet (raw : pystr) :
  Forall (fun c => c = 32 ∨ kept_char c = true) (clean_text raw).
Proof. apply clean_text_chars. Qed.

(** X5: cleaning a cleaned text gives a text with no run of whitespace that
    [clean_text] leaves as it is: the second cleaning reaches a fixed
    point. *)
Theorem clean_text_twice_fixed (raw : pystr) :
  has_space_run (clean_text (clean_text raw)) = false ∧
  clean_text (clean_text (clean_text raw)) = clean_text (clean_text raw).
Proof.
  assert (∀ t, Forall (fun c => c = 32 ∨ kept_char c = true) t →
               Forall (fun c => isspace c = true ∨ kept_char c = true) t) as Hweak.
  { intros t Ht. eapply Forall_impl; [exact Ht|]. intros c [->|Hk]; [by left | by right]. }
  pose proof (Hweak _ (clean_text_chars raw)) as Honce.
  rewrite (clean_text_kept (clean_text raw) Honce).
  pose proof (split_words (clean_text raw)) as Hws.
  split; [by apply join_no_space_run|].
  rewrite <- (clean_text_kept (clean_text raw) Honce).
  rewrite (clean_text_kept (clean_text (clean_text raw)))
    by apply Hweak, clean_text_chars.
  rewrite (clean_text_kept (clean_text raw) Honce).
  by rewrite split_join.
Qed.

(** * Further properties of the document store *)

Section StoreProperties.

Context {F : Type} `{FloatArith F}.
Variable encode : list pystr → option (list (list F)).
Variable faiss_search : list (list F) → list F → Z → option (list F * list Z).

(** X6: [embed_chunks] returns the empty list on the empty list without
    calling the model, raises when the model raises on a list that is not
    empty, and otherwise returns the chunks with their texts and metadata as
    they were; when the model answers one vector for each chunk, each chunk
    gets its vector, in order. *)
Theorem embed_chunks_keeps_chunks
    (self : TextProcessor (list F)) (chunks : list (TextChunk (list F))) :
  embed_chunks self [] = Done [] ∧
  (chunks ≠ [] → model self (map text chunks) = None →
   embed_chunks self chunks = Raise ProviderError) ∧
  (∀ out, embed_chunks self chunks = Done out →
     map text out = map text chunks ∧
     map metadata out = map metadata chunks ∧
     ∀ embs, model self (map text chunks) = Some embs →
             length embs = length chunks →
             map embedding out = map Some embs).
Proof.
  split; [done|]. split.
  - intros Hne Hraise. destruct chunks as [|c cs]; [done|].
    unfold embed_chunks. by rewrite Hraise.
  - intros out Hout. destruct chunks as [|c cs].
    + injection Hout as <-. repeat split; try done. by intros [|] ? ?.
    + unfold embed_chunks in Hout.
      destruct (model self (map text (c :: cs))) as [embs|] eqn:Hm; [|done].
      injection Hout as <-.
      split; [exact (set_embeddings_text (c :: cs) embs)|].
      split; [exact (set_embeddings_metadata (c :: cs) embs)|].
      intros embs' [= <-] Hl. exact (set_embeddings_all (c :: cs) embs Hl).
Qed.

(** X7: the chunks [process_document] returns have texts that are not
    empty, hold only spaces and kept characters, and neither begin nor end
    with whitespace. *)
Theorem process_document_texts_clean
    (fuel : nat) (doc : pystr) (metadata : option loc) (h : heap)
    (cs : list (TextChunk (list F))) (h' : heap) :
  process_document (text_processor encode) fuel doc metadata h = (Done cs, h') →
  Forall (fun c =>
            text c ≠ [] ∧
            Forall (fun a => a = 32 ∨ kept_char a = true) (text c) ∧
            (∀ a t, text c = a :: t → isspace a = false) ∧
            (∀ a, last (text c) = Some a → isspace a = false)) cs.
Proof.
  unfold process_document.
  destruct (match metadata with None => dict_new h | Some l => (l, h) end) as [md h1].
  destruct (chunk_text _ (clean_text doc) fuel (Some md) h1) as [[cs0|e|] h2] eqn:Hrun;
    [|done|done].
  intros [= Hemb <-].
  destruct (embed_chunks_keeps_chunks (text_processor encode) cs0) as (_ & _ & Hkeep).
  destruct (Hkeep cs Hemb) as (Htext & _).
  apply Forall_forall. intros c Hc.
  assert (text c ∈ map text cs0) as Hin.
  { rewrite <- Htext. apply list_elem_of_In, in_map, list_elem_of_In, Hc. }
  apply list_elem_of_In, in_map_iff in Hin as (c0 & Heq & Hc0).
  apply list_elem_of_In in Hc0.
  destruct (chunk_text_texts _ _ _ _ _ _ _ c0 Hrun Hc0) as (s & e & Ht & Hne).
  rewrite <- Heq. split; [done|]. split; [|split].
  - apply Forall_forall. intros a Ha. rewrite Ht in Ha.
    apply strip_elem, slice_elem in Ha.
    pose proof (clean_text_chars doc) as Hclean.
    rewrite Forall_forall in Hclean. by apply Hclean.
  - intros a t. rewrite Ht. apply strip_head.
  - intros a. rewrite Ht. apply strip_last.
Qed.

(** X8: [clear] leaves a store of length 0 with an empty index of the
    store's dimension, keeps the directory and the dimension, and a search of
    the cleared store returns no result. *)
Theorem clear_empties_the_store
    (self : DocumentStore F) (query : pystr) (k : Z) (threshold : F) :
  store_len (clear self) = 0 ∧
  vectors (index (clear self)) = [] ∧
  dim (index (clear self)) = dimension self ∧
  persist_dir (clear self) = persist_dir self ∧
  dimension (clear self) = dimension self ∧
  ∀ results,
    search encode faiss_search (clear self) query k threshold = Done results →
    results = [].
Proof.
  repeat split; try done.
  intros results. unfold search.
  destruct (encode [query]) as [[|qv ?]|]; try done.
  destruct (faiss_search _ qv k) as [[distances indices]|]; [|done].
  intros [= <-]. rewrite search_loop. simpl.
  assert (omap (retained (clear self) threshold) (zip indices distances) = []) as ->;
    [|done].
  destruct (omap _ _) as [|r rs] eqn:Ho; [done|].
  assert (r ∈ omap (retained (clear self) threshold) (zip indices distances)) as Hr
    by (rewrite Ho; left).
  apply list_elem_of_omap in Hr as (hit & _ & Hret).
  apply retained_Some in Hret as (cd & Hb & _). simpl in Hb. lia.
Qed.

(** X9: after any finite sequence of [add_document] and [clear] calls on a
    freshly constructed store, the record at each position holds, as a list,
    the vector the index holds at that position; every vector has 384
    components; and the directory, the dimension and the dimension of the
    index are those of the construction. *)
Theorem records_aligned_with_vectors
    (calls : list call) (dir : string) (h : heap) :
  let s := (do_calls encode calls (DocumentStore_init dir, h)).1 in
  map cd_embedding (metadata_store s) = map AsList (vectors (index s)) ∧
  Forall (fun v => length v = 384%nat) (vectors (index s)) ∧
  dim (index s) = 384 ∧ dimension s = 384 ∧ persist_dir s = dir.
Proof.
  cbv zeta. unfold do_calls.
  set (Inv := fun s : DocumentStore F =>
    map cd_embedding (metadata_store s) = map AsList (vectors (index s)) ∧
    Forall (fun v => length v = 384%nat) (vectors (index s)) ∧
    dim (index s) = 384 ∧ dimension s = 384 ∧ persist_dir s = dir).
  assert (Inv (DocumentStore_init dir)) as Hinit by (by repeat split).
  revert Hinit. generalize (DocumentStore_init (F:=F) dir) as s. revert h.
  induction calls as [|c calls IH]; intros h s Hs; simpl; [done|].
  destruct c as [fuel doc metadata|]; simpl.
  - pose proof (add_document_cases encode fuel s doc metadata h) as Hcases.
    pose proof (add_document_added encode fuel s doc metadata h) as Hadded.
    cbv zeta in Hcases, Hadded.
    destruct (add_document encode fuel s doc metadata h) as [[out s'] h'].
    simpl in *. apply IH.
    destruct out as [cs| |]; try by subst.
    destruct Hcases as [[_ ->]|[Hne _]]; [done|].
    destruct (Hadded cs eq_refl Hne)
      as (embs & records & _ & Hlen & Hre & _ & Hp & Hd & Hdim & Hv & Hm).
    destruct Hs as (Hal & Hall & Hsd & Hsdim & Hsp).
    unfold Inv. rewrite Hv, Hm, Hp, Hd, Hdim, !map_app, Hal, Hre.
    repeat split; try done.
    apply Forall_app. split; [done|].
    eapply Forall_impl; [exact Hlen|]. intros v Hv'. simpl in Hv'. lia.
  - apply IH. destruct Hs as (_ & _ & _ & Hsdim & Hsp).
    unfold Inv. simpl. by repeat split.
Qed.

(** X10: raising the threshold only removes results: when scores are
    ordered by a strict weak order and [<=] is transitive, the search with
    the threshold [t2 >= t1] returns the results of the search with [t1] whose
    score reaches [t2], in the same order. *)
Theorem search_threshold_monotone
    (self : DocumentStore F) (query : pystr) (k : Z) (t1 t2 : F)
    (results : list (SearchResult F)) :
  flt_asymmetric → flt_negatively_transitive →
  (∀ a b c : F, fle a b = true → fle b c = true → fle a c = true) →
  fle t1 t2 = true →
  search encode faiss_search self query k t1 = Done results →
  search encode faiss_search self query k t2
  = Done (filter (fun r => fle t2 (score r) = true) results).
Proof.
  intros Hasym Hnt Htrans Ht. unfold search.
  destruct (encode [query]) as [[|qv ?]|]; try done.
  destruct (faiss_search _ qv k) as [[distances indices]|]; [|done].
  intros [= <-]. rewrite !search_loop. simpl. f_equal.
  rewrite <- sort_by_score_filter by done. f_equal.
  induction (zip indices distances) as [|hit hits IH]; [done|].
  assert (∀ t, omap (retained self t) (hit :: hits)
               = option_list (retained self t hit) ++ omap (retained self t) hits)
    as Hcons by (intros t; simpl; by destruct (retained self t hit)).
  rewrite !Hcons, filter_app, IH. f_equal.
  unfold retained. destruct (decide _); [|done].
  destruct (metadata_store self !! Z.to_nat hit.1) as [cd|] eqn:Hcd.
  - destruct (fle t2 (score_of_distance hit.2)) eqn:H2.
    + rewrite (Htrans _ _ _ Ht H2). simpl.
      rewrite filter_cons. destruct (decide _) as [|Hp]; [done|].
      by simpl in Hp.
    + destruct (fle t1 (score_of_distance hit.2)); simpl; [|done].
      rewrite filter_cons. destruct (decide _) as [Hp|]; [|done].
      simpl in Hp. congruence.
  - by destruct (fle t2 (score_of_distance hit.2)),
      (fle t1 (score_of_distance hit.2)).
Qed.

End StoreProperties.

(** * Further properties of [save] and [load] *)

Section PersistProperties.

Context {F : Type} `{FloatArith F}.
Variable encode : list pystr → option (list (list F)).
Variable faiss_search : list (list F) → list F → Z → option (list F * list Z).

(** X11: [save] writes the two files of its directory and no other: every
    other path holds what it held; [index.faiss] holds the index; and saving
    a second time changes nothing more. *)
Theorem save_writes_two_files
    (self : DocumentStore F) (path : option string) (fs : gmap string (file F)) :
  let dir := default (persist_dir self) path in
  let fs' := (save self path fs).2 in
  (∀ p, p ≠ path_join dir "index.faiss" → p ≠ path_join dir "metadata.json" →
        fs' !! p = fs !! p) ∧
  fs' !! path_join dir "index.faiss" = Some (FaissFile (index self)) ∧
  is_Some (fs' !! path_join dir "metadata.json") ∧
  save self path fs' = ((save self path fs).1, fs').
Proof.
  cbv zeta. unfold save.
  set (dir := match path with None => persist_dir self | Some p => p end).
  assert (default (persist_dir self) path = dir) as -> by (by destruct path).
  pose proof (path_join_files dir) as Hne.
  destruct (mapM json_dump_record (metadata_store self)) as [records|]; simpl.
  - split; [|split; [|split]].
    + intros p H1 H2. by rewrite !lookup_insert_ne.
    + rewrite lookup_insert_ne by done. by rewrite lookup_insert_eq.
    + rewrite lookup_insert_eq. by eexists.
    + f_equal. apply map_eq. intros p.
      destruct (decide (p = path_join dir "metadata.json")) as [->|H2];
        [by rewrite !lookup_insert_eq|].
      rewrite lookup_insert_ne by done.
      destruct (decide (p = path_join dir "index.faiss")) as [->|H1];
        [by rewrite lookup_insert_eq, lookup_insert_ne, lookup_insert_eq|].
      by rewrite !lookup_insert_ne.
  - split; [|split; [|split]].
    + intros p H1 H2. by rewrite !lookup_insert_ne.
    + rewrite lookup_insert_ne by done. by rewrite lookup_insert_eq.
    + rewrite lookup_insert_eq. by eexists.
    + f_equal. apply map_eq. intros p.
      destruct (decide (p = path_join dir "metadata.json")) as [->|H2];
        [by rewrite !lookup_insert_eq|].
      rewrite lookup_insert_ne by done.
      destruct (decide (p = path_join dir "index.faiss")) as [->|H1];
        [by rewrite lookup_insert_eq, lookup_insert_ne, lookup_insert_eq|].
      by rewrite !lookup_insert_ne.
Qed.



(** X14: a store that [load] returns holds the index and one record for
    each record of the two files, every embedding as an array; it has the
    dimension 384 and the directory ["data/document_store"] whatever the
    directory it was loaded from, so that a [save] with no path leaves the
    files of any other directory it was loaded from as they are. *)
Theorem loaded_store_forgets_its_directory
    (dir : string) (fs fs2 : gmap string (file F)) (loaded : DocumentStore F) :
  load dir fs = Done loaded →
  (∃ records,
     fs !! path_join dir "index.faiss" = Some (FaissFile (index loaded)) ∧
     fs !! path_join dir "metadata.json" = Some (JsonFile records) ∧
     metadata_store loaded = map load_record records) ∧
  Forall (fun item => ¬ embedding_is_list item) (metadata_store loaded) ∧
  persist_dir loaded = "data/document_store"%string ∧
  dimension loaded = 384 ∧
  (save loaded None fs2).2 !! path_join "data/document_store" "index.faiss"
  = Some (FaissFile (index loaded)) ∧
  (dir ≠ "data/document_store"%string →
   ∀ name, name ∈ ["index.faiss"; "metadata.json"]%string →
           (save loaded None fs2).2 !! path_join dir name = fs2 !! path_join dir name).
Proof.
  unfold load. intros Hload.
  destruct (fs !! path_join dir "index.faiss") as [[ix| |]|]; try done.
  destruct (fs !! path_join dir "metadata.json") as [[|records|]|]; try done.
  injection Hload as <-. cbn [index metadata_store persist_dir dimension].
  split; [by exists records|]. split.
  { apply Forall_forall. intros item Hitem. by eapply load_record_array. }
  split; [done|]. split; [done|].
  unfold save. cbn [index metadata_store persist_dir DocumentStore_init].
  set (fs1 := <[path_join "data/document_store" "index.faiss" := FaissFile ix]> fs2).
  assert (∀ f : file F,
            (<[path_join "data/document_store" "metadata.json" := f]> fs1)
              !! path_join "data/document_store" "index.faiss" = Some (FaissFile ix) ∧
            (dir ≠ "data/document_store"%string →
             ∀ name, name ∈ ["index.faiss"; "metadata.json"]%string →
               (<[path_join "data/document_store" "metadata.json" := f]> fs1)
                 !! path_join dir name = fs2 !! path_join dir name)) as Hfiles.
  { intros f. unfold fs1. split.
    - rewrite lookup_insert_ne by (apply not_eq_sym, path_join_files).
      by rewrite lookup_insert_eq.
    - intros Hdir name Hname.
      rewrite !lookup_insert_ne; [done| |].
      + intros Heq. apply Hdir. symmetry.
        eapply (path_join_dir _ _ "index.faiss" name); [|done|done].
        rewrite !elem_of_cons. tauto.
      + intros Heq. apply Hdir. symmetry.
        eapply (path_join_dir _ _ "metadata.json" name); [|done|done].
        rewrite !elem_of_cons. tauto. }
  destruct (mapM json_dump_record (map load_record records)); cbn [snd]; apply Hfiles.
Qed.

End PersistProperties.

(** * Properties of the document processor and the upload route *)

Section ProcessorProperties.

Context {F : Type} `{FloatArith F}.
Variable encode : list pystr → option (list (list F)).
Variable faiss_search : list (list F) → list F → Z → option (list F * list Z).
Variable path_exists : string → bool.
Variable suffix_lower : string → string.
Variable loader_load : DocumentLoader → string → option (pystr * dict).
Variable hash_str : string → string.
Variable save_upload_file : string → option string.

(** X15: when [DocumentProcessor.add_document] answers success, the
    identifier is the hash of the path, the metadata it answers is a new
    dictionary that still holds what the loader read, [chunks_processed] is
    the number of records the store gained, and the store was saved:
    loading its directory gives a store with the same index, the same texts
    and metadata, and the same answer to every search. *)
Theorem processor_success_is_saved
    (fuel : nat) (store : DocumentStore F) (file_path : string)
    (h : heap) (fs : gmap string (file F))
    (document_id : string) (chunks_processed : Z) (metadata : loc) :
  let r := processor_add_document encode path_exists suffix_lower loader_load
             hash_str fuel store file_path h fs in
  r.1.1.1 = Done (StatusSuccess document_id chunks_processed metadata) →
  document_id = hash_str file_path ∧
  metadata = length h ∧
  (∃ loader doc content,
     get_document_loader path_exists suffix_lower file_path = Done loader ∧
     loader_load loader file_path = Some (doc, content) ∧
     r.1.2 !! metadata = Some content) ∧
  0 ≤ chunks_processed ∧
  store_len r.1.1.2 = store_len store + chunks_processed ∧
  ∃ loaded,
    load (persist_dir store) r.2 = Done loaded ∧
    index loaded = index r.1.1.2 ∧
    map record_view (metadata_store loaded) = map record_view (metadata_store r.1.1.2) ∧
    ∀ query k threshold,
      search encode faiss_search loaded query k threshold
      = search encode faiss_search r.1.1.2 query k threshold.
Proof.
  cbv zeta. unfold processor_add_document.
  destruct (get_document_loader path_exists suffix_lower file_path)
    as [loader| |] eqn:Hloader; [|done|done].
  destruct (loader_load loader file_path) as [[doc content]|] eqn:Hload; [|done].
  pose proof (add_document_len encode fuel store doc (Some (length h))
                (h ++ [content])) as Hlen.
  pose proof (add_document_frame encode fuel store doc (Some (length h))
                (h ++ [content]) (length h) content) as Hframe.
  destruct (add_document encode fuel store doc (Some (length h)) (h ++ [content]))
    as [[[cs| |] store'] h'] eqn:Hadd; [|done|done].
  simpl in Hlen, Hframe.
  destruct (Hlen cs eq_refl) as [Hgrow Hdir].
  destruct (save store' None fs) as [[[]| |] fs'] eqn:Hsave; [|done|done].
  simpl. intros [= <- <- <-].
  split; [done|]. split; [done|]. split.
  { exists loader, doc, content. split; [done|]. split; [done|].
    apply Hframe. rewrite lookup_app_r by lia.
    by replace (length h - length h)%nat with 0%nat by lia. }
  split; [lia|]. split; [done|].
  assert (Forall embedding_is_list (metadata_store store')
          ∧ Forall metadata_is_json (metadata_store store')) as [Hlists Hjson].
  { assert ((save store' None fs).1 = Done tt) as Hs by (by rewrite Hsave).
    unfold save in Hs.
    destruct (mapM json_dump_record (metadata_store store')) as [records|] eqn:Hm;
      [|done].
    by eapply json_dump_Some. }
  destruct (save_load_roundtrip encode faiss_search store' None fs Hlists Hjson)
    as (_ & loaded & Hl & Hix & Hview & Hsearch).
  rewrite Hsave in Hl. simpl in Hl. rewrite Hdir in Hl.
  by exists loaded.
Qed.

(** X16: on a store that holds an embedding as an array, as every loaded
    store with a record does, [DocumentProcessor.add_document] answers an
    error whenever the loader and the store's [add_document] return: the
    store has gained the chunks all the same, [metadata.json] is left
    truncated, and the directory can no longer be loaded. *)
Theorem processor_error_after_the_store_grew
    (fuel : nat) (store : DocumentStore F) (file_path : string)
    (h : heap) (fs : gmap string (file F))
    (loader : DocumentLoader) (doc : pystr) (content : dict)
    (cs : list (TextChunk (list F))) :
  ¬ Forall embedding_is_list (metadata_store store) →
  get_document_loader path_exists suffix_lower file_path = Done loader →
  loader_load loader file_path = Some (doc, content) →
  (add_document encode fuel store doc (Some (length h)) (h ++ [content])).1.1 = Done cs →
  let r := processor_add_document encode path_exists suffix_lower loader_load
             hash_str fuel store file_path h fs in
  r.1.1.1 = Done (StatusError (Raised TypeError)) ∧
  store_len r.1.1.2 = store_len store + Z.of_nat (length cs) ∧
  r.2 !! path_join (persist_dir store) "metadata.json" = Some TruncatedFile ∧
  load (persist_dir store) r.2 = Raise ValueError.
Proof.
  intros Hnot Hloader Hload Hdone. cbv zeta.
  unfold processor_add_document. rewrite Hloader, Hload.
  pose proof (add_document_len encode fuel store doc (Some (length h))
                (h ++ [content]) cs Hdone) as [Hgrow Hdir].
  pose proof (add_document_keeps_arrays encode fuel store doc (Some (length h))
                (h ++ [content]) Hnot) as Harr.
  destruct (add_document encode fuel store doc (Some (length h)) (h ++ [content]))
    as [[out store'] h'].
  simpl in Hdone, Hgrow, Hdir, Harr. subst out.
  unfold save. rewrite (json_dump_None _ (fun Hall => Harr (proj1 Hall))). simpl.
  rewrite Hdir.
  split; [done|]. split; [done|]. split; [by rewrite lookup_insert_eq|].
  unfold load.
  rewrite lookup_insert_ne by (apply not_eq_sym, path_join_files).
  by rewrite !lookup_insert_eq.
Qed.

(** X17: a file whose text has more than 200 characters after cleaning:
    [DocumentProcessor.add_document] does not return, whatever the fuel,
    and neither does the upload route when the file arrives through it;
    the store and the files stay as they were. *)
Theorem processor_never_answers_long_document
    (fuel : nat) (store : DocumentStore F) (file_path : string)
    (h : heap) (fs : gmap string (file F))
    (loader : DocumentLoader) (doc : pystr) (content : dict) :
  get_document_loader path_exists suffix_lower file_path = Done loader →
  loader_load loader file_path = Some (doc, content) →
  200 < len (clean_text doc) →
  let r := processor_add_document encode path_exists suffix_lower loader_load
             hash_str fuel store file_path h fs in
  (r.1.1.1 = Running ∧ r.1.1.2 = store ∧ r.2 = fs) ∧
  ∀ filename,
    str_in (suffix_lower filename) get_allowed_extensions = true →
    save_upload_file filename = Some file_path →
    let u := upload_document encode path_exists suffix_lower loader_load
               hash_str save_upload_file fuel store filename h fs in
    u.1.1.1 = Running ∧ u.1.1.2 = store ∧ u.2 = fs.
Proof.
  intros Hloader Hload Hlong. cbv zeta.
  assert (∃ h', processor_add_document encode path_exists suffix_lower loader_load
                  hash_str fuel store file_path h fs = (Running, store, h', fs))
    as [h' Hr].
  { unfold processor_add_document. rewrite Hloader, Hload.
    destruct (add_document_never_returns encode fuel store doc (Some (length h))
                (h ++ [content]) Hlong) as [Hrun Hsame].
    destruct (add_document encode fuel store doc (Some (length h)) (h ++ [content]))
      as [[out store'] h'].
    simpl in Hrun, Hsame. subst. by exists h'. }
  split; [by rewrite Hr|].
  intros filename Hallowed Htemp. unfold upload_document.
  by rewrite Hallowed, Htemp, Hr.
Qed.

(** X19: the upload route, when the temporary file keeps the extension of
    the upload: it answers 400 exactly when the extension is not among the
    allowed ones, and then nothing has changed; an answer 200 is possible
    only for [.pdf], [.docx], [.doc] and [.eml]; an upload with the
    allowed extension [.txt] is always answered with 500, the store, the
    heap and the files unchanged. *)
Theorem upload_answers_by_extension
    (fuel : nat) (store : DocumentStore F) (filename : string)
    (h : heap) (fs : gmap string (file F)) :
  (∀ temp, save_upload_file filename = Some temp →
           suffix_lower temp = suffix_lower filename) →
  let ext := suffix_lower filename in
  let u := upload_document encode path_exists suffix_lower loader_load
             hash_str save_upload_file fuel store filename h fs in
  (u.1.1.1 = Done (HTTPException 400)
   ↔ str_in ext get_allowed_extensions = false) ∧
  (str_in ext get_allowed_extensions = false →
   u = (Done (HTTPException 400), store, h, fs)) ∧
  (∀ e, u.1.1.1 ≠ Raise e) ∧
  (∀ document_id chunks_processed metadata,
     u.1.1.1 = Done (Answer200 document_id chunks_processed metadata) →
     ext ∈ [".pdf"; ".docx"; ".doc"; ".eml"]%string) ∧
  (ext = ".txt"%string → u = (Done (HTTPException 500), store, h, fs)).
Proof.
  intros Htemp. cbv zeta. unfold upload_document.
  destruct (str_in (suffix_lower filename) get_allowed_extensions) eqn:Hallowed;
    simpl negb; cbv iota.
  2:{ split; [done|]. split; [done|]. split; [done|]. split; [done|].
      intros Hext. rewrite Hext in Hallowed. done. }
  destruct (save_upload_file filename) as [temp|] eqn:Hsave.
  2:{ split; [done|]. split; [done|]. split; [done|]. split; [done|]. done. }
  specialize (Htemp temp eq_refl).
  pose proof (allowed_loader_cases path_exists suffix_lower temp) as Hcases.
  rewrite Htemp in Hcases.
  unfold processor_add_document.
  destruct (get_document_loader path_exists suffix_lower temp)
    as [loader|e|] eqn:Hloader.
  - assert (suffix_lower filename ∈ [".pdf"; ".docx"; ".doc"; ".eml"]%string) as Hin.
    { apply Hcases; [done|by eexists]. }
    assert (suffix_lower filename ≠ ".txt"%string) as Hne.
    { intros Heq. rewrite Heq in Hin. apply four_extensions in Hin.
      intuition congruence. }
    destruct (loader_load loader temp) as [[doc content]|].
    2:{ split; [done|]. split; [done|]. split; [done|]. split; [done|]. done. }
    destruct (add_document encode fuel store doc (Some (length h)) (h ++ [content]))
      as [[[cs| |] store'] h'].
    + destruct (save store' None fs) as [[[]| |] fs'];
        (split; [done|]; split; [done|]; split; [done|]; split; [done|]; done).
    + split; [done|]. split; [done|]. split; [done|]. split; [done|]. done.
    + split; [done|]. split; [done|]. split; [done|]. split; [done|]. done.
  - split; [done|]. split; [done|]. split; [done|]. split; [done|]. done.
  - exfalso. revert Hloader. unfold get_document_loader.
    by repeat case_match.
Qed.

End ProcessorProperties.

Section LoaderProperties.

Variable path_exists : string → bool.
Variable suffix_lower : string → string.

(** X18: the extensions the upload route lets through and the extensions
    [get_document_loader] has a loader for are not the same: for a file
    that exists, both accept exactly [.pdf], [.docx], [.doc] and [.eml];
    [.txt] is let through but has no loader ([ValueError]); [.msg] has a
    loader but is not let through.  A file that does not exist raises
    [FileNotFoundError] whatever its extension. *)
Theorem allowed_and_loadable_extensions (file_path : string) :
  let ext := suffix_lower file_path in
  let found := get_document_loader path_exists suffix_lower file_path in
  (path_exists file_path = false → found = Raise FileNotFoundError) ∧
  (path_exists file_path = true →
   ((str_in ext get_allowed_extensions = true ∧ ∃ loader, found = Done loader)
    ↔ ext ∈ [".pdf"; ".docx"; ".doc"; ".eml"]%string) ∧
   (ext = ".txt"%string →
    str_in ext get_allowed_extensions = true ∧ found = Raise ValueError) ∧
   (ext = ".msg"%string →
    str_in ext get_allowed_extensions = false ∧ found = Done EmailLoader) ∧
   ((∀ loader, found ≠ Done loader) → found = Raise ValueError)).
Proof.
  cbv zeta. unfold get_document_loader. split.
  { intros ->. done. }
  intros ->. simpl negb. cbv iota.
  generalize (suffix_lower file_path). intros ext.
  unfold str_in, get_allowed_extensions. simpl existsb.
  rewrite !orb_false_r, four_extensions.
  destruct (String.eqb_spec ext ".pdf") as [->|Hpdf].
  { split; [|split; [done|split; [done|]]].
    - split; [intros _; tauto|]. intros _. split; [done|by eexists].
    - intros Hno. by destruct (Hno PDFLoader). }
  destruct (String.eqb_spec ext ".docx") as [->|Hdocx].
  { split; [|split; [done|split; [done|]]].
    - split; [intros _; tauto|]. intros _. split; [done|by eexists].
    - intros Hno. by destruct (Hno WordLoader). }
  destruct (String.eqb_spec ext ".doc") as [->|Hdoc].
  { split; [|split; [done|split; [done|]]].
    - split; [intros _; tauto|]. intros _. split; [done|by eexists].
    - intros Hno. by destruct (Hno WordLoader). }
  destruct (String.eqb_spec ext ".eml") as [->|Heml].
  { split; [|split; [done|split; [done|]]].
    - split; [intros _; tauto|]. intros _. split; [done|by eexists].
    - intros Hno. by destruct (Hno EmailLoader). }
  destruct (String.eqb_spec ext ".txt") as [->|Htxt].
  { split; [|split; [done|split; [done|done]]].
    split; [by intros [_ [loader ?]]|].
    intros Hin. exfalso. intuition congruence. }
  destruct (String.eqb_spec ext ".msg") as [->|Hmsg].
  { split; [|split; [done|split; [done|]]].
    - split; [by intros [? _]|]. intros Hin. exfalso. intuition congruence.
    - intros Hno. by destruct (Hno EmailLoader). }
  simpl. split; [|split; [done|split; [done|done]]].
  split; [by intros [? _]|]. intros Hin. exfalso. intuition congruence.
Qed.

End LoaderProperties.

(** * The further properties on the scenario *)

(** X2, witness: the scenario text, with the caller's dictionary at
    address 0. *)
Lemma chunk_text_short_text_witness :
  ([title_T] : heap) !! 0%nat = Some title_T ∧
  len three_sentences ≤ 200 ∧
  chunk_text (TextProcessor_init demo_encode) three_sentences 1 (Some 0%nat) [title_T]
  = (Done [{| text := three_sentences; metadata := 1%nat; embedding := None |}],
     [title_T; chunk_meta title_T 0 43 0]).
Proof.
  assert (len three_sentences ≤ 200) as Hshort by (vm_compute; discriminate).
  split; [reflexivity|]. split; [exact Hshort|].
  exact (chunk_text_short_text demo_encode three_sentences 0%nat [title_T] title_T 0
           eq_refl Hshort).
Defined.

(** X3, witness: the first iteration on the scenario text. *)
Lemma chunks_match_their_ranges_witness :
  ([title_T] : heap) !! 0%nat = Some title_T ∧
  ∃ c, chunks (iterate (TextProcessor_init demo_encode) three_sentences 1 0%nat
                 (loop_init [title_T])) !! 0%nat = Some c ∧
       text c = three_sentences ∧
       ∃ s e,
         chunk_span (hp (iterate (TextProcessor_init demo_encode) three_sentences 1
                           0%nat (loop_init [title_T]))) c = Some (s, e) ∧
         0 ≤ s < e ∧ e ≤ len three_sentences ∧
         text c = strip (slice three_sentences s e).
Proof.
  split; [reflexivity|].
  eexists. split; [vm_compute; reflexivity|]. split; [vm_compute; reflexivity|].
  edestruct (chunks_match_their_ranges demo_encode three_sentences 0%nat [title_T]
               title_T 1 eq_refl 0%nat)
    as (s & e & Hspan & _ & Hb & Hle & _ & Htext & _); [vm_compute; reflexivity|].
  exists s, e. split; [exact Hspan|]. split; [exact Hb|]. split; [exact Hle|].
  exact Htext.
Defined.

(** X7, witness: [process_document] on the scenario text. *)
Lemma process_document_texts_clean_witness :
  ∃ cs h',
    process_document (text_processor demo_encode) 1 three_sentences None []
    = (Done cs, h') ∧
    length cs = 1%nat ∧
    Forall (fun c =>
              text c ≠ [] ∧
              Forall (fun a => a = 32 ∨ kept_char a = true) (text c) ∧
              (∀ a t, text c = a :: t → isspace a = false) ∧
              (∀ a, last (text c) = Some a → isspace a = false)) cs.
Proof.
  eexists _, _. split; [vm_compute; reflexivity|]. split; [reflexivity|].
  eapply (process_document_texts_clean demo_encode 1 three_sentences None []).
  vm_compute; reflexivity.
Defined.

(** X10, witness: the scenario store searched with the thresholds 0 and
    one half. *)
Lemma search_threshold_monotone_witness :
  fle 0%Q (1 # 2)%Q = true ∧
  ∃ results,
    search demo_encode demo_search demo_store three_sentences 3 0%Q = Done results ∧
    search demo_encode demo_search demo_store three_sentences 3 (1 # 2)%Q
    = Done (filter (fun r => fle (1 # 2)%Q (score r) = true) results).
Proof.
  split; [reflexivity|].
  eexists. split; [vm_compute; reflexivity|].
  apply (search_threshold_monotone demo_encode demo_search demo_store
           three_sentences 3 0%Q (1 # 2)%Q);
    [apply exact_flt_asymmetric | apply exact_flt_negatively_transitive
    | apply exact_fle_transitive | reflexivity | vm_compute; reflexivity].
Defined.



(** X15, witness: a first PDF file added to a fresh store. *)
Lemma processor_success_is_saved_witness :
  let r := processor_add_document demo_encode demo_exists demo_suffix demo_loader_load
             demo_hash 1 (DocumentStore_init "data/document_store") "policy.pdf" [] ∅ in
  r.1.1.1 = Done (StatusSuccess "#policy.pdf" 1 0%nat) ∧
  r.1.2 !! 0%nat = Some title_T ∧
  store_len r.1.1.2 = 1 ∧
  ∃ loaded,
    load "data/document_store" r.2 = Done loaded ∧
    index loaded = index r.1.1.2.
Proof.
  cbv zeta.
  assert ((processor_add_document demo_encode demo_exists demo_suffix demo_loader_load
             demo_hash 1 (DocumentStore_init "data/document_store") "policy.pdf" [] ∅).1.1.1
          = Done (StatusSuccess "#policy.pdf" 1 0%nat)) as Hok
    by (vm_compute; reflexivity).
  destruct (processor_success_is_saved demo_encode demo_search demo_exists demo_suffix
              demo_loader_load demo_hash 1 (DocumentStore_init "data/document_store")
              "policy.pdf" [] ∅ _ _ _ Hok)
    as (_ & _ & (loader & doc & content & _ & Hl & Hmd) & _ & Hlen & loaded & Hload & Hix & _).
  injection Hl as _ <-.
  split; [exact Hok|]. split; [exact Hmd|]. split; [exact Hlen|].
  exists loaded. split; [exact Hload|exact Hix].
Defined.

(** X16, witness: a second PDF file added to [reloaded_store]. *)
Lemma processor_error_after_the_store_grew_witness :
  let r := processor_add_document demo_encode demo_exists demo_suffix demo_loader_load
             demo_hash 1 reloaded_store "more.pdf" [] ∅ in
  ¬ Forall embedding_is_list (metadata_store reloaded_store) ∧
  r.1.1.1 = Done (StatusError (Raised TypeError)) ∧
  store_len r.1.1.2 = store_len reloaded_store + 1 ∧
  load "data/document_store" r.2 = Raise ValueError.
Proof.
  cbv zeta. split; [exact reloaded_store_array|].
  assert (∃ c, (add_document demo_encode 1 reloaded_store three_sentences (Some 0%nat)
                  ([] ++ [title_T])).1.1 = Done [c]) as [c Hadd]
    by (eexists; vm_compute; reflexivity).
  destruct (processor_error_after_the_store_grew demo_encode demo_exists demo_suffix
              demo_loader_load demo_hash 1 reloaded_store "more.pdf" [] ∅
              PDFLoader three_sentences title_T [c]
              reloaded_store_array eq_refl eq_refl Hadd)
    as (Herr & Hlen & _ & Hload).
  split; [exact Herr|]. split; [exact Hlen|]. exact Hload.
Defined.

(** X17, witness: a PDF file of 201 letters, added directly and uploaded. *)
Lemma processor_never_answers_long_document_witness :
  200 < len (clean_text long_word) ∧
  (processor_add_document demo_encode demo_exists demo_suffix long_loader_load
     demo_hash 5 (DocumentStore_init "data/document_store")
     "/tmp/tmpab12cd.pdf" [] ∅).1.1.1 = Running ∧
  (upload_document demo_encode demo_exists demo_suffix long_loader_load
     demo_hash demo_save_upload_file 5 (DocumentStore_init "data/document_store")
     "long.pdf" [] ∅).1.1.1 = Running.
Proof.
  assert (200 < len (clean_text long_word)) as Hlong by (vm_compute; reflexivity).
  destruct (processor_never_answers_long_document demo_encode demo_exists demo_suffix
              long_loader_load demo_hash demo_save_upload_file 5
              (DocumentStore_init "data/document_store") "/tmp/tmpab12cd.pdf" [] ∅
              PDFLoader long_word title_T eq_refl eq_refl Hlong)
    as [(Hrun & _) Hup].
  split; [exact Hlong|]. split; [exact Hrun|].
  exact (proj1 (Hup "long.pdf"%string eq_refl eq_refl)).
Defined.

(** X19, witness: an upload named [notes.txt]. *)
Lemma upload_answers_by_extension_witness :
  demo_suffix "notes.txt" = ".txt"%string ∧
  str_in ".txt" get_allowed_extensions = true ∧
  upload_document demo_encode demo_exists demo_suffix demo_loader_load
    demo_hash demo_save_upload_file 1 (DocumentStore_init "data/document_store")
    "notes.txt" [] ∅
  = (Done (HTTPException 500), DocumentStore_init "data/document_store", [], ∅).
Proof.
  split; [reflexivity|]. split; [reflexivity|].
  apply (upload_answers_by_extension demo_encode demo_exists demo_suffix
           demo_loader_load demo_hash demo_save_upload_file 1
           (DocumentStore_init "data/document_store") "notes.txt" [] ∅).
  - intros temp [= <-]. reflexivity.
  - reflexivity.
Defined.

(** X14, witness: the scenario store saved to and loaded from [backup]. *)
Lemma loaded_store_forgets_its_directory_witness :
  ∃ loaded,
    load "backup" (save demo_store (Some "backup"%string) ∅).2 = Done loaded ∧
    persist_dir loaded = "data/document_store"%string ∧
    (save loaded None ∅).2 !! path_join "backup" "index.faiss" = None.
Proof.
  destruct demo_store_records as [Hlists Hjson].
  destruct (save_load_roundtrip demo_encode demo_search demo_store
              (Some "backup"%string) ∅ Hlists Hjson)
    as (_ & loaded & Hload & _).
  cbn [default] in Hload.
  exists loaded. split; [exact Hload|].
  destruct (loaded_store_forgets_its_directory "backup" _ ∅ loaded Hload)
    as (_ & _ & Hdir & _ & _ & Hkeep).
  split; [exact Hdir|].
  rewrite (Hkeep ltac:(discriminate) "index.faiss"%string); [apply lookup_empty|].
  rewrite !elem_of_cons. tauto.
Defined.

(** * The model on concrete inputs *)

Section Examples.

(** ['  ab \t c\n'.split()] is [['ab', 'c']]. *)
Example split_runs :
  split [32; 32; 97; 98; 32; 9; 32; 99; 10] = [py "ab"; py "c"].
Proof. reflexivity. Qed.

Example split_blank : split (py "   ") = [].
Proof. reflexivity. Qed.

Example join_words : join [32] [py "ab"; py "c"; py "d"] = py "ab c d".
Proof. reflexivity. Qed.

Example strip_both : strip [10; 32; 97; 32; 98; 9; 32] = py "a b".
Proof. reflexivity. Qed.

(** ['a.b.c'.rfind('.', 0, 5)] is 3, with the end at 3 it is 1, and a
    character that is absent gives -1. *)
Example rfind_last : rfind (py "a.b.c") 46 0 5 = 3.
Proof. reflexivity. Qed.

Example rfind_before_end : rfind (py "a.b.c") 46 0 3 = 1.
Proof. reflexivity. Qed.

Example rfind_absent : rfind (py "a.b.c") 33 0 5 = -1.
Proof. reflexivity. Qed.

Example slice_clamped : slice (py "abcdef") 4 1000 = py "ef".
Proof. reflexivity. Qed.

(** A non-ASCII letter is dropped, a symbol becomes a space and the ends are
    trimmed: [clean_text('  Héllo,\n wörld #1 ')]. *)
Example clean_text_mixed :
  clean_text [32; 32; 72; 233; 108; 108; 111; 44; 10; 32; 119; 246; 114; 108; 100;
              32; 35; 49; 32]
  = py "Hllo, wrld  1".
Proof. reflexivity. Qed.

(** A window of 1000 characters with a full stop at position 700 is cut
    after it, and the next window begins 200 characters earlier. *)
Example window_cut_after_sentence :
  let tp := TextProcessor_init (fun _ => @None (list unit)) in
  let txt := repeat 97 700 ++ [46] ++ repeat 97 799 in
  window_end tp txt 0 = 701 ∧ next_start tp txt 701 = 501.
Proof. split; vm_compute; reflexivity. Qed.

(** A full stop in the first half of the window does not cut it. *)
Example window_not_cut_early :
  let tp := TextProcessor_init (fun _ => @None (list unit)) in
  let txt := repeat 97 500 ++ [46] ++ repeat 97 999 in
  window_end tp txt 0 = 1000.
Proof. vm_compute. reflexivity. Qed.

(** The first three iterations on a text of 300 letters: the start moves
    from 0 to 100 and stays there, one more chunk at each turn. *)
Example tail_window_repeats :
  let tp := TextProcessor_init (fun _ => @None (list unit)) in
  let st n := iterate tp (repeat 97 300) n 0%nat (loop_init [∅]) in
  map (fun n => (start (st n), length (chunks (st n)))) [0; 1; 2; 3]%nat
  = [(0, 0%nat); (100, 1%nat); (100, 2%nat); (100, 3%nat)].
Proof. vm_compute. reflexivity. Qed.

(** The scores of exact distances 0, 1 and 3. *)
Example scores_exact :
  map score_of_distance [0; 1; 3]%Q = [1 / (1 + 0); 1 / (1 + 1); 1 / (1 + 3)]%Q.
Proof. reflexivity. Qed.

(** An equal score keeps the order of the answers, a higher one moves
    ahead. *)
Example sort_is_stable :
  let r t s := {| sr_text := py t; sr_metadata := ∅; score := s |} in
  sort_by_score [r "a" (1 # 2); r "b" (1 # 3); r "c" (1 # 2); r "d" 1]%Q
  = [r "d" 1; r "a" (1 # 2); r "c" (1 # 2); r "b" (1 # 3)]%Q.
Proof. reflexivity. Qed.

End Examples.
